(** * speech-backend: the WebSocket to speech-recognition relay

    A shallow embedding of [src/server.ts] (module [Server]) and of the
    older variant of the same file kept in the repository (module
    [Legacy]), with the audio conversion they share (module [Audio]).

    Conventions.
    - A Node.js [Buffer] is a [list byte].
    - A JavaScript Number is an IEEE-754 binary64 value, modelled with the
      standard library's [spec_float] at precision 53, [emax] 1024; a
      [Float32Array] element is a binary32 value, decoded from four
      little-endian bytes and widened to binary64 when it is read.
    - An [Int16Array] is a [list Z] of values in [-32768, 32767].
    - Each event handler is a function from the session state to the new
      state and the list of actions it performed on the client socket and
      on the upstream stream, in program order. *)

From Stdlib Require Import ZArith List String Ascii Bool Lia QArith Qround.
From Stdlib Require Import Floats.SpecFloat.
From Stdlib Require Import Strings.Byte.
Import ListNotations.
Local Open Scope Z_scope.

(** ** Audio conversion *)

Module Audio.

Definition Buffer := list byte.

(** binary64 parameters of a JavaScript Number *)
Definition prec64 : Z := 53.
Definition emax64 : Z := 1024.

Definition byte_val (b : byte) : Z := Z.of_N (Byte.to_N b).

(** The 32-bit word stored little-endian in four consecutive bytes. *)
Definition word32_le (b0 b1 b2 b3 : byte) : Z :=
  Z.lor (byte_val b0)
    (Z.lor (Z.shiftl (byte_val b1) 8)
       (Z.lor (Z.shiftl (byte_val b2) 16) (Z.shiftl (byte_val b3) 24))).

(** IEEE-754 binary32 decoding of a 32-bit word: sign bit 31, biased
    exponent bits 30..23, fraction bits 22..0. *)
Definition float32_of_bits (w : Z) : spec_float :=
  let s := Z.testbit w 31 in
  let e := Z.land (Z.shiftr w 23) 255 in
  let f := Z.land w 8388607 in
  if e =? 255 then
    if f =? 0 then S754_infinity s else S754_nan
  else if e =? 0 then
    match f with
    | Zpos m => S754_finite s m (-149)
    | _ => S754_zero s
    end
  else
    match Z.lor f 8388608 with
    | Zpos m => S754_finite s m (e - 150)
    | _ => S754_nan
    end.

(** [new Float32Array(arrayBuffer)]: one element per four bytes. Trailing
    bytes that do not fill an element are only met by [Legacy], whose
    explicit element count [byteLength / 4] is truncated by the typed array
    constructor. *)
Fixpoint float32Array_of (b : Buffer) : list spec_float :=
  match b with
  | b0 :: b1 :: b2 :: b3 :: rest =>
      float32_of_bits (word32_le b0 b1 b2 b3) :: float32Array_of rest
  | _ => []
  end.

(** Reading [float32Array[i]] yields a Number: the same value in binary64. *)
Definition number_of_float32 (x : spec_float) : spec_float :=
  match x with
  | S754_finite s m e => binary_round prec64 emax64 s m e
  | _ => x
  end.

(** The Number denoted by an integer literal. *)
Definition number_of_Z (z : Z) : spec_float :=
  binary_normalize prec64 emax64 z 0 false.

Definition js_mul (a b : spec_float) : spec_float := SFmul prec64 emax64 a b.

(** [Math.min] and [Math.max] of two Numbers: NaN if either is NaN, and
    -0 is smaller than +0. *)
Definition Math_min (a b : spec_float) : spec_float :=
  match SFcompare a b with
  | None => S754_nan
  | Some Lt => a
  | Some Gt => b
  | Some Eq =>
      match a, b with
      | S754_zero sa, S754_zero sb => S754_zero (sa || sb)
      | _, _ => a
      end
  end.

Definition Math_max (a b : spec_float) : spec_float :=
  match SFcompare a b with
  | None => S754_nan
  | Some Lt => b
  | Some Gt => a
  | Some Eq =>
      match a, b with
      | S754_zero sa, S754_zero sb => S754_zero (sa && sb)
      | _, _ => a
      end
  end.

(** Integer part of a Number (truncation toward zero); NaN, the zeros and
    the infinities give 0, as in the ToInt16 abstract operation. *)
Definition truncate (y : spec_float) : Z :=
  match y with
  | S754_finite s m e => cond_Zopp s (Z.shiftl (Zpos m) e)
  | _ => 0
  end.

(** Storing a Number into an [Int16Array] element: ToInt16, that is the
    integer part taken modulo 2^16 and read as a signed 16-bit value. *)
Definition ToInt16 (y : spec_float) : Z :=
  let i := truncate y mod 65536 in
  if 32768 <=? i then i - 65536 else i.

(** The body of the conversion loop:
    [Math.max(-32768, Math.min(32767, float32Array[i] * 32767))]
    stored into [int16Array[i]]. *)
Definition convert_sample (x : spec_float) : Z :=
  ToInt16
    (Math_max (number_of_Z (-32768))
       (Math_min (number_of_Z 32767)
          (js_mul (number_of_float32 x) (number_of_Z 32767)))).

(** The loop over [float32Array]. *)
Definition int16Array_of (float32Array : list spec_float) : list Z :=
  map convert_sample float32Array.

(** The two bytes of a signed 16-bit value, little-endian. *)
Definition byte_of_Z (z : Z) : byte :=
  match Byte.of_N (Z.to_N (z mod 256)) with
  | Some b => b
  | None => x00
  end.

Definition int16_bytes (v : Z) : Buffer :=
  let u := v mod 65536 in [byte_of_Z u; byte_of_Z (u / 256)].

(** [Buffer.from(int16Array.buffer)]: the raw bytes of the typed array. *)
Definition Buffer_from (int16Array : list Z) : Buffer :=
  flat_map int16_bytes int16Array.

(** The 16-bit samples a byte buffer carries (the reader's view of a
    LINEAR16 chunk). *)
Fixpoint int16_samples (b : Buffer) : list Z :=
  match b with
  | lo :: hi :: rest =>
      let u := byte_val lo + 256 * byte_val hi in
      (if 32768 <=? u then u - 65536 else u) :: int16_samples rest
  | _ => []
  end.

(** *** Exact reference values *)

(** The rational a finite binary float denotes; 0 for the other classes. *)
Definition F2Q (x : spec_float) : Q :=
  match x with
  | S754_finite s m e =>
      match e with
      | Zneg p => Qmake (cond_Zopp s (Zpos m)) (2 ^ p)%positive
      | _ => inject_Z (cond_Zopp s (Zpos m) * 2 ^ e)
      end
  | _ => 0%Q
  end.

(** Truncation toward zero, and rounding to the nearest integer with ties
    upward ([Math.round]). *)
Definition Qtrunc (q : Q) : Z := Z.quot (Qnum q) (Zpos (Qden q)).
Definition Qround (q : Q) : Z := Qfloor (q + (1 # 2))%Q.

Definition clamp (lo hi z : Z) : Z := Z.max lo (Z.min hi z).

(** What the conversion computes, in exact arithmetic: the scaled sample
    truncated toward zero and clamped. NaN gives 0 and an infinity the bound
    of its sign. *)
Definition sample_trunc (x : spec_float) : Z :=
  match x with
  | S754_nan => 0
  | S754_infinity s => if s then -32768 else 32767
  | _ => clamp (-32768) 32767 (Qtrunc (F2Q x * inject_Z 32767)%Q)
  end.

(** The specification's wording, [clamp(round(f * 32767), -32768, 32767)],
    on the same exact values. *)
Definition sample_round (x : spec_float) : Z :=
  match x with
  | S754_nan => 0
  | S754_infinity s => if s then -32768 else 32767
  | _ => clamp (-32768) 32767 (Qround (F2Q x * inject_Z 32767)%Q)
  end.

(** The values a binary32 word can decode to: at most 24 significant bits,
    exponent of the last bit between -149 and 104. *)
Definition is_float32 (x : spec_float) : Prop :=
  match x with
  | S754_finite _ m e => Zpos m < 2 ^ 24 /\ -149 <= e <= 104
  | _ => True
  end.

(** The two bounds of the loop body, as Numbers. *)
Definition c32767 : spec_float := S754_finite false 9006924376834048 (-38).
Definition cm32768 : spec_float := S754_finite true 4503599627370496 (-37).

End Audio.


(** ** The session: shared data *)

Module Relay.

Import Audio.

(** [ws.readyState] *)
Inductive ReadyState := CONNECTING | OPEN | CLOSING | CLOSED.

(** The two shapes the server serialises with [JSON.stringify] and sends to
    the client. *)
Inductive client_msg :=
| ErrorMsg (error : string)
| TranscriptMsg (transcript : string) (isFinal : bool).

(** The upstream stream object returned by [streamingRecognize], as far as
    the session reads it: its identity and its [destroyed] and [writable]
    properties. *)
Record Stream := { sid : nat; destroyed : bool; writable : bool }.

(** What a handler does to the outside world. *)
Inductive action :=
| WsSend (m : client_msg)
| StreamingRecognize (id : nat)
| StreamWrite (id : nat) (data : Buffer)
| StreamEnd (id : nat)
| StreamDestroy (id : nat)
| SetTimeout (ms : nat).

(** The variables of one connection: [recognizeStream] (null or the stream
    object), the socket state, the callbacks registered with [setTimeout]
    that have not run yet (each with the chunk it captured, oldest first),
    and the number of streams created so far, which names the next one. *)
Record Session := {
  recognizeStream : option Stream;
  readyState : ReadyState;
  timers : list Buffer;
  next_sid : nat
}.

Definition set_recognizeStream (s : Session) (r : option Stream) : Session :=
  {| recognizeStream := r; readyState := readyState s;
     timers := timers s; next_sid := next_sid s |}.

Definition set_timers (s : Session) (t : list Buffer) : Session :=
  {| recognizeStream := recognizeStream s; readyState := readyState s;
     timers := t; next_sid := next_sid s |}.

Definition set_readyState (s : Session) (r : ReadyState) : Session :=
  {| recognizeStream := recognizeStream s; readyState := r;
     timers := timers s; next_sid := next_sid s |}.

(** The state when the connection handler has just run. *)
Definition init : Session :=
  {| recognizeStream := None; readyState := OPEN; timers := []; next_sid := 0 |}.

(** The stream object after [stream.end()]: no longer writable. *)
Definition ended (st : Stream) : Stream :=
  {| sid := sid st; destroyed := destroyed st; writable := false |}.

(** [ws.readyState === WebSocket.OPEN] *)
Definition is_open (s : Session) : bool :=
  match readyState s with OPEN => true | _ => false end.

(** [if (ws.readyState === WebSocket.OPEN) ws.send(JSON.stringify(m))] *)
Definition send_if_open (s : Session) (m : client_msg) : list action :=
  if is_open s then [WsSend m] else [].

(** [recognizeStream && !recognizeStream.destroyed && recognizeStream.writable] *)
Definition stream_ready (s : Session) : bool :=
  match recognizeStream s with
  | Some st => negb (destroyed st) && writable st
  | None => false
  end.

(** A value produced by [JSON.parse]. *)
#[local] Unset Elimination Schemes.
Inductive json :=
| JNull
| JBool (b : bool)
| JNumber (n : spec_float)
| JString (s : string)
| JArray (items : list json)
| JObject (members : list (string * json)).
#[local] Set Elimination Schemes.

(** Reading the property [key] of a parsed value: a TypeError on [null],
    the member's value on an object that has it (the last one when the text
    repeated the key), [undefined] otherwise. *)
Inductive property := PThrows | PUndefined | PValue (v : json).

Definition get_property (j : json) (key : string) : property :=
  match j with
  | JNull => PThrows
  | JObject members =>
      match find (fun kv => String.eqb (fst kv) key) (rev members) with
      | Some kv => PValue (snd kv)
      | None => PUndefined
      end
  | _ => PUndefined
  end.

(** [command.command === 'stopStreaming'] *)
Definition is_stopStreaming (p : property) : bool :=
  match p with
  | PValue (JString c) => String.eqb c "stopStreaming"
  | _ => false
  end.

(** A message event of the client socket: a string, a [Buffer], or anything
    else. *)
Inductive Message :=
| MString (text : string)
| MBuffer (data : Buffer)
| MOther.

(** The payload of a [data] event of the upstream stream, as far as the
    handler reads it; [None] is an absent (or null) property. *)
Record Alternative := { transcript : option string }.
Record Result := { alternatives : option (list Alternative); is_final : option bool }.
Record Response := { results : option (list Result); speechEventType : option string }.

(** What the event loop can deliver to a session. [create_throws] tells
    whether [streamingRecognize] would throw if this message made the
    handler call it. [StreamState] and [SocketState] are changes the stream
    object and the socket undergo on their own. *)
Inductive event :=
| ClientMessage (m : Message) (create_throws : bool)
| TimerFires
| ClientClose
| ClientError
| UpstreamError (err_message : string)
| UpstreamData (d : Response)
| UpstreamEnd
| UpstreamClose
| StreamState (d w : bool)
| SocketState (r : ReadyState).

Definition stream_state (s : Session) (d w : bool) : Session :=
  match recognizeStream s with
  | Some st =>
      set_recognizeStream s (Some {| sid := sid st; destroyed := d; writable := w |})
  | None => s
  end.

(** The [data] handler of the upstream stream; both variants relay the same
    way. *)
Definition stream_on_data (s : Session) (data : Response) : Session * list action :=
  match results data with
  | Some (result :: _) =>
      match alternatives result with
      | Some (alt :: _) =>
          match transcript alt with
          | Some t =>
              let isFinal := match is_final result with Some b => b | None => false end in
              if String.eqb t EmptyString then (s, [])
              else (s, send_if_open s (TranscriptMsg t isFinal))
          | None => (s, [])
          end
      | _ => (s, [])
      end
  | _ => (s, [])
  end.

(** The actions of a run, by kind. *)
Definition is_send (a : action) : bool :=
  match a with WsSend _ => true | _ => false end.
Definition is_write (a : action) : bool :=
  match a with StreamWrite _ _ => true | _ => false end.
Definition is_create (a : action) : bool :=
  match a with StreamingRecognize _ => true | _ => false end.

(** A session that is streaming on the stream [id]: the handle is held,
    not destroyed, writable, and the client is connected. *)
Definition streaming (id : nat) : Session :=
  {| recognizeStream := Some {| sid := id; destroyed := false; writable := true |};
     readyState := OPEN; timers := []; next_sid := S id |}.

(** The payload cut down to the first alternative of its first result. *)
Definition first_only (d : Response) : Response :=
  {| results :=
       match results d with
       | Some (r :: _) =>
           Some [ {| alternatives :=
                       match alternatives r with
                       | Some (a :: _) => Some [a]
                       | other => other
                       end;
                     is_final := is_final r |} ]
       | other => other
       end;
     speechEventType := speechEventType d |}.

(** The text of the stop command, [{"command":"stopStreaming"}], and
    [JSON.parse] restricted to that one text, for running examples. *)
Definition dquote : string := String "034"%char EmptyString.

Definition stop_text : string :=
  ("{" ++ dquote ++ "command" ++ dquote ++ ":"
       ++ dquote ++ "stopStreaming" ++ dquote ++ "}")%string.

Definition parse_stop_only (text : string) : option json :=
  if String.eqb text stop_text
  then Some (JObject [("command"%string, JString "stopStreaming")])
  else None.

(** An event that delivers audio: a binary message of the client. *)
Definition is_audio (e : event) : bool :=
  match e with ClientMessage (MBuffer _) _ => true | _ => false end.

(** The held handle, when there is one, is the stream created last. *)
Definition holds_latest (s : Session) : Prop :=
  forall st, recognizeStream s = Some st -> S (sid st) = next_sid s.

(** The stream [h] exists and the session does not hold it. *)
Definition released (h : nat) (s : Session) : Prop :=
  (h < next_sid s)%nat /\ forall st, recognizeStream s = Some st -> sid st <> h.

(** The handles a session holds. *)
Definition held (s : Session) : list Stream :=
  match recognizeStream s with Some st => [st] | None => [] end.

End Relay.

(** ** [src/server.ts] *)

Module Server.

Import Audio Relay.

Section Handlers.

(** [JSON.parse]; [None] when it throws. *)
Variable JSON_parse : string -> option json.

(** [startGoogleStream]: [streamingRecognize] either throws, and the catch
    block reports it and clears the reference, or returns a fresh stream
    (not destroyed, writable), which is stored in [recognizeStream]. *)
Definition startGoogleStream (s : Session) (create_throws : bool)
  : Session * list action :=
  if create_throws then
    (set_recognizeStream s None,
     send_if_open s (ErrorMsg "Internal failure starting transcription service."))
  else
    ({| recognizeStream :=
          Some {| sid := next_sid s; destroyed := false; writable := true |};
        readyState := readyState s;
        timers := timers s;
        next_sid := S (next_sid s) |},
     [StreamingRecognize (next_sid s)]).

(** The [error] handler of the upstream stream; [err_message] is
    [err.message], and every stream object has a [destroy] method. *)
Definition stream_on_error (s : Session) (err_message : string)
  : Session * list action :=
  let errorMessage :=
    ("Google API Error: " ++
       (if String.eqb err_message EmptyString then "Unknown error" else err_message))%string in
  let sent := send_if_open s (ErrorMsg errorMessage) in
  let destroy :=
    match recognizeStream s with
    | Some st => [StreamDestroy (sid st)]
    | None => []
    end in
  (set_recognizeStream s None, sent ++ destroy).

Definition stream_on_data := Relay.stream_on_data.

Definition stream_on_end (s : Session) : Session * list action := (s, []).

(** The [close] handler of the upstream stream. *)
Definition stream_on_close (s : Session) : Session * list action :=
  (set_recognizeStream s None, []).

(** [processAndSendAudio] *)
Definition processAndSendAudio (s : Session) (audioBuffer : Buffer)
  : Session * list action :=
  if negb (List.length audioBuffer mod 4 =? 0)%nat then (s, [])
  else
    let float32Array := float32Array_of audioBuffer in
    let int16Array := int16Array_of float32Array in
    match recognizeStream s with
    | Some st =>
        if negb (destroyed st) && writable st
        then (s, [StreamWrite (sid st) (Buffer_from int16Array)])
        else (s, [])
    | None => (s, [])
    end.

(** The callback given to [setTimeout] for the first chunk. *)
Definition first_chunk_timeout (s : Session) (message : Buffer)
  : Session * list action :=
  if stream_ready s then processAndSendAudio s message else (s, []).

(** The [message] handler of the client socket. *)
Definition ws_on_message (s : Session) (message : Message) (create_throws : bool)
  : Session * list action :=
  match message with
  | MString text =>
      match JSON_parse text with
      | None => (s, [])
      | Some command =>
          if is_stopStreaming (get_property command "command") then
            match recognizeStream s with
            | Some st =>
                if negb (destroyed st) && writable st
                then (set_recognizeStream s (Some (ended st)), [StreamEnd (sid st)])
                else (s, [])
            | None => (s, [])
            end
          else (s, [])
      end
  | MBuffer data =>
      match recognizeStream s with
      | None =>
          let (s1, started) := startGoogleStream s create_throws in
          (set_timers s1 (timers s1 ++ [data]), started ++ [SetTimeout 150])
      | Some st =>
          if destroyed st then (s, [])
          else if negb (destroyed st) && writable st
               then processAndSendAudio s data
               else (s, [])
      end
  | MOther => (s, [])
  end.

(** The [close] handler of the client socket. The delayed [destroy] is
    commented out in the source, so only [end] is called. *)
Definition ws_on_close (s : Session) : Session * list action :=
  let ending :=
    match recognizeStream s with
    | Some st =>
        if negb (destroyed st)
        then (if writable st then [StreamEnd (sid st)] else [])
        else []
    | None => []
    end in
  (set_recognizeStream s None, ending).

(** The [error] handler of the client socket. *)
Definition ws_on_error (s : Session) : Session * list action :=
  let destroy :=
    match recognizeStream s with
    | Some st => if negb (destroyed st) then [StreamDestroy (sid st)] else []
    | None => []
    end in
  (set_recognizeStream s None, destroy).

(** One turn of the event loop. *)
Definition step (s : Session) (e : event) : Session * list action :=
  match e with
  | ClientMessage m create_throws => ws_on_message s m create_throws
  | TimerFires =>
      match timers s with
      | [] => (s, [])
      | chunk :: rest => first_chunk_timeout (set_timers s rest) chunk
      end
  | ClientClose => ws_on_close s
  | ClientError => ws_on_error s
  | UpstreamError err_message => stream_on_error s err_message
  | UpstreamData d => stream_on_data s d
  | UpstreamEnd => stream_on_end s
  | UpstreamClose => stream_on_close s
  | StreamState d w => (stream_state s d w, [])
  | SocketState r => (set_readyState s r, [])
  end.

Fixpoint run (s : Session) (evs : list event) : Session * list action :=
  match evs with
  | [] => (s, [])
  | e :: rest =>
      let (s1, a1) := step s e in
      let (s2, a2) := run s1 rest in
      (s2, a1 ++ a2)
  end.

Definition reachable (s : Session) : Prop :=
  exists evs, fst (run init evs) = s.

End Handlers.

End Server.

(** ** The older variant of [server.ts] *)

Module Legacy.

Import Audio Relay.

Section Handlers.

Variable JSON_parse : string -> option json.

Definition startGoogleStream (s : Session) (create_throws : bool)
  : Session * list action :=
  if create_throws then
    (set_recognizeStream s None,
     send_if_open s (ErrorMsg "Falha interna ao iniciar o serviço de transcrição."))
  else
    ({| recognizeStream :=
          Some {| sid := next_sid s; destroyed := false; writable := true |};
        readyState := readyState s;
        timers := timers s;
        next_sid := S (next_sid s) |},
     [StreamingRecognize (next_sid s)]).

(** The [error] handler of the upstream stream. *)
Definition stream_on_error (s : Session) (err_message : string)
  : Session * list action :=
  let errorMessage :=
    ("Erro na API do Google: " ++
       (if String.eqb err_message EmptyString then "Erro desconhecido" else err_message))%string in
  let sent := send_if_open s (ErrorMsg errorMessage) in
  match recognizeStream s with
  | Some st => (set_recognizeStream s None, sent ++ [StreamDestroy (sid st)])
  | None => (s, sent)
  end.

Definition stream_on_data := Relay.stream_on_data.

Definition stream_on_end (s : Session) : Session * list action := (s, []).

(** The [message] handler of the client socket. The chunk is converted
    before the stream is looked at, and the callback given to [setTimeout]
    captures the converted array. *)
Definition ws_on_message (s : Session) (message : Message) (create_throws : bool)
  : Session * list action :=
  match message with
  | MString text =>
      match JSON_parse text with
      | None => (s, [])
      | Some command =>
          if is_stopStreaming (get_property command "command") then
            match recognizeStream s with
            | Some st =>
                if negb (destroyed st)
                then (set_recognizeStream s (Some (ended st)), [StreamEnd (sid st)])
                else (s, [])
            | None => (s, [])
            end
          else (s, [])
      end
  | MBuffer data =>
      let float32Array := float32Array_of data in
      let int16Array := int16Array_of float32Array in
      match recognizeStream s with
      | Some st =>
          if negb (destroyed st) && writable st
          then (s, [StreamWrite (sid st) (Buffer_from int16Array)])
          else (s, [])
      | None =>
          let (s1, started) := startGoogleStream s create_throws in
          (set_timers s1 (timers s1 ++ [Buffer_from int16Array]),
           started ++ [SetTimeout 50])
      end
  | MOther => (s, [])
  end.

(** The callback given to [setTimeout]; [chunk] is the converted array. *)
Definition first_chunk_timeout (s : Session) (chunk : Buffer)
  : Session * list action :=
  match recognizeStream s with
  | Some st =>
      if negb (destroyed st) && writable st
      then (s, [StreamWrite (sid st) chunk])
      else (s, [])
  | None => (s, [])
  end.

(** The [close] handler of the client socket: [end] then [destroy]. *)
Definition ws_on_close (s : Session) : Session * list action :=
  let teardown :=
    match recognizeStream s with
    | Some st =>
        if negb (destroyed st)
        then [StreamEnd (sid st); StreamDestroy (sid st)]
        else []
    | None => []
    end in
  (set_recognizeStream s None, teardown).

(** The [error] handler of the client socket. *)
Definition ws_on_error (s : Session) : Session * list action :=
  let destroy :=
    match recognizeStream s with
    | Some st => if negb (destroyed st) then [StreamDestroy (sid st)] else []
    | None => []
    end in
  (set_recognizeStream s None, destroy).

(** One turn of the event loop; this variant registers no [close] handler
    on the upstream stream. *)
Definition step (s : Session) (e : event) : Session * list action :=
  match e with
  | ClientMessage m create_throws => ws_on_message s m create_throws
  | TimerFires =>
      match timers s with
      | [] => (s, [])
      | chunk :: rest => first_chunk_timeout (set_timers s rest) chunk
      end
  | ClientClose => ws_on_close s
  | ClientError => ws_on_error s
  | UpstreamError err_message => stream_on_error s err_message
  | UpstreamData d => stream_on_data s d
  | UpstreamEnd => stream_on_end s
  | UpstreamClose => (s, [])
  | StreamState d w => (stream_state s d w, [])
  | SocketState r => (set_readyState s r, [])
  end.

Fixpoint run (s : Session) (evs : list event) : Session * list action :=
  match evs with
  | [] => (s, [])
  | e :: rest =>
      let (s1, a1) := step s e in
      let (s2, a2) := run s1 rest in
      (s2, a1 ++ a2)
  end.

Definition reachable (s : Session) : Prop :=
  exists evs, fst (run init evs) = s.

End Handlers.

End Legacy.

(** ** Notions for whole runs *)

Module Trace.

Import Audio Relay.

(** What reaches the upstream stream for one chunk: the bytes of the
    converted array. *)
Definition convert_frame (frame : Buffer) : Buffer :=
  Buffer_from (int16Array_of (float32Array_of frame)).

(** A float that is a number of finite size (a zero or a finite value). *)
Definition finite_or_zero (x : spec_float) : bool :=
  match x with
  | S754_zero _ | S754_finite _ _ _ => true
  | _ => false
  end.

(** The action is an operation on the stream [h]. *)
Definition touches (h : nat) (a : action) : bool :=
  match a with
  | StreamWrite id _ | StreamEnd id | StreamDestroy id => Nat.eqb id h
  | _ => false
  end.

Definition is_destroy_of (h : nat) (a : action) : bool :=
  match a with StreamDestroy id => Nat.eqb id h | _ => false end.

(** In a list of actions, nothing is done to the stream [h] after a
    [destroy] of it. *)
Fixpoint quiet_after_destroy (h : nat) (acts : list action) : bool :=
  match acts with
  | [] => true
  | a :: rest =>
      (if is_destroy_of h a
       then forallb (fun b => negb (touches h b)) rest
       else true)
      && quiet_after_destroy h rest
  end.





(** The stop command as a [Buffer]: the bytes of its text, which is how the
    message listener receives a text frame when the socket library hands
    every message over as a [Buffer]. *)
Definition stop_frame : Buffer := list_byte_of_string stop_text.

(** The three handlers that clear [recognizeStream] without looking at the
    event: close and error of the client socket, close of the stream. *)
Definition teardowns : list (Session -> Session * list action) :=
  [Server.ws_on_close; Server.ws_on_error; Server.stream_on_close].

End Trace.

(** * Properties *)

Import Audio Relay.

(** ** The conversion is exact in binary64 *)

Lemma digits2_log2 (p : positive) : Zpos (digits2_pos p) = Z.log2 (Zpos p) + 1.
Proof.
  induction p as [p IH | p IH |]; cbn [digits2_pos]; try reflexivity;
    rewrite Pos2Z.inj_succ, IH; destruct p; cbn [Z.log2 Pos.size]; lia.
Qed.

Lemma digits2_bounds (p : positive) (d : Z) :
  Zpos (digits2_pos p) = d <-> 2 ^ (d - 1) <= Zpos p < 2 ^ d.
Proof.
  rewrite digits2_log2. split.
  - intros <-. replace (Z.log2 (Z.pos p) + 1 - 1) with (Z.log2 (Z.pos p)) by lia.
    apply (Z.log2_spec (Zpos p)). lia.
  - intros H. assert (0 <= d - 1).
    { destruct (Z.leb_spec 0 (d - 1)) as [|Hn]; [assumption|].
      destruct (Z.eq_dec d 0) as [->|]; [cbn in H; lia|].
      rewrite (Z.pow_neg_r 2 d) in H by lia. lia. }
    rewrite (Z.log2_unique (Zpos p) (d - 1)); [lia | assumption |].
    replace (Z.succ (d - 1)) with d by lia. assumption.
Qed.

Lemma shr_1_double (z : Z) :
  0 < z -> shr_1 (Build_shr_record (2 * z) false false) = Build_shr_record z false false.
Proof. destruct z; try lia. reflexivity. Qed.

Lemma pow2_xO (n : positive) : 2 ^ Zpos n~0 = 2 ^ Zpos n * 2 ^ Zpos n.
Proof. rewrite <- Z.pow_add_r by lia. f_equal. lia. Qed.

Lemma pow2_xI (n : positive) : 2 ^ Zpos n~1 = 2 * (2 ^ Zpos n * 2 ^ Zpos n).
Proof.
  rewrite <- Z.pow_add_r, <- (Z.pow_succ_r 2) by lia. f_equal. lia.
Qed.

Lemma iter_shr_exact (n : positive) : forall z, 0 < z ->
  iter_pos shr_1 n (Build_shr_record (z * 2 ^ Zpos n) false false)
  = Build_shr_record z false false.
Proof.
  induction n as [n IH | n IH |]; intros z Hz; cbn [iter_pos].
  - replace (z * 2 ^ Zpos n~1) with (2 * ((z * 2 ^ Zpos n) * 2 ^ Zpos n))
      by (rewrite pow2_xI; ring).
    rewrite shr_1_double by (apply Z.mul_pos_pos; [apply Z.mul_pos_pos|]; lia).
    rewrite IH by (apply Z.mul_pos_pos; lia). apply IH, Hz.
  - replace (z * 2 ^ Zpos n~0) with ((z * 2 ^ Zpos n) * 2 ^ Zpos n)
      by (rewrite pow2_xO; ring).
    rewrite IH by (apply Z.mul_pos_pos; lia). apply IH, Hz.
  - rewrite Z.pow_1_r, (Z.mul_comm z). apply shr_1_double, Hz.
Qed.

(** A mantissa with 53 significant bits followed by [n] zero bits is
    rounded to binary64 without loss. *)
Lemma binary_round_aux_exact (s : bool) (M : positive) (n E : Z) :
  Zpos (digits2_pos M) = 53 -> 0 <= n -> -1074 <= E + n <= 971 ->
  binary_round_aux prec64 emax64 s (Zpos M * 2 ^ n) E loc_Exact
  = S754_finite s M (E + n).
Proof.
  intros HM Hn HE.
  assert (Hd : Zdigits2 (Zpos M * 2 ^ n) = 53 + n).
  { assert (0 < 2 ^ n) by (apply Z.pow_pos_nonneg; lia).
    destruct (Zpos M * 2 ^ n) as [|P|P] eqn:HP; try lia.
    cbn [Zdigits2]. apply digits2_bounds. rewrite <- HP.
    apply digits2_bounds in HM.
    replace (53 + n - 1) with (52 + n) by lia.
    rewrite !Z.pow_add_r by lia. cbn [Z.sub Z.add Z.opp Z.pos_sub Pos.pred_double] in HM. nia. }
  unfold binary_round_aux, shr_fexp. rewrite Hd.
  unfold fexp, emin, prec64, emax64.
  replace (Z.max (53 + n + E - 53) (3 - 1024 - 53) - E) with n by lia.
  assert (Hshr : shr (shr_record_of_loc (Zpos M * 2 ^ n) loc_Exact) E n
                 = (Build_shr_record (Zpos M) false false, E + n)).
  { unfold shr, shr_record_of_loc. destruct n as [|p|p]; try lia.
    - rewrite Z.mul_1_r, Z.add_0_r. reflexivity.
    - rewrite iter_shr_exact by lia. reflexivity. }
  rewrite Hshr. cbn [shr_m loc_of_shr_record round_nearest_even Zdigits2].
  rewrite HM.
  replace (Z.max (53 + (E + n) - 53) (3 - 1024 - 53) - (E + n)) with 0 by lia.
  cbn [shr shr_record_of_loc shr_m].
  replace (E + n <=? 1024 - 53) with true by (symmetry; apply Z.leb_le; lia).
  reflexivity.
Qed.

Lemma number_32767 : number_of_Z 32767 = c32767.
Proof. reflexivity. Qed.
Lemma number_m32768 : number_of_Z (-32768) = cm32768.
Proof. reflexivity. Qed.

Lemma ToInt16_small (s : bool) (M : positive) (E : Z) :
  Z.shiftl (Zpos M) E <= 32768 -> (s = false -> Z.shiftl (Zpos M) E < 32768) ->
  ToInt16 (S754_finite s M E) = cond_Zopp s (Z.shiftl (Zpos M) E).
Proof.
  intros Hle Hlt. unfold ToInt16, truncate.
  assert (0 <= Z.shiftl (Zpos M) E) by (apply Z.shiftl_nonneg; lia).
  destruct s; cbn [cond_Zopp].
  - destruct (Z.eq_dec (Z.shiftl (Zpos M) E) 0) as [->|Hnz]; [reflexivity|].
    replace (- Z.shiftl (Zpos M) E) with (65536 - Z.shiftl (Zpos M) E + (-1) * 65536) by ring.
    rewrite Z.mod_add, Z.mod_small by lia.
    destruct (Z.leb_spec 32768 (65536 - Z.shiftl (Zpos M) E)); lia.
  - specialize (Hlt eq_refl). rewrite Z.mod_small by lia.
    destruct (Z.leb_spec 32768 (Z.shiftl (Zpos M) E)); lia.
Qed.

Lemma shiftl_lower (M E k : Z) :
  0 <= k -> 2 ^ 52 <= M -> - 52 <= - k <= E -> 2 ^ (52 - k) <= Z.shiftl M E.
Proof.
  intros Hk HM HE.
  destruct (Z.leb_spec 0 E).
  - rewrite Z.shiftl_mul_pow2 by lia.
    assert (1 <= 2 ^ E) by (apply (Z.pow_le_mono_r 2 0 E); lia).
    assert (2 ^ (52 - k) <= 2 ^ 52) by (apply Z.pow_le_mono_r; lia). nia.
  - rewrite Z.shiftl_div_pow2 by lia.
    apply Z.div_le_lower_bound; [apply Z.pow_pos_nonneg; lia|].
    rewrite <- Z.pow_add_r by lia.
    transitivity (2 ^ 52); [apply Z.pow_le_mono_r; lia | assumption].
Qed.

Lemma shiftl_upper (M E k : Z) :
  0 <= k <= 53 -> 0 < M < 2 ^ 53 -> E <= - k -> Z.shiftl M E < 2 ^ (53 - k).
Proof.
  intros Hk HM HE. rewrite Z.shiftl_div_pow2 by lia.
  apply Z.div_lt_upper_bound; [apply Z.pow_pos_nonneg; lia|].
  rewrite <- Z.pow_add_r by lia.
  apply Z.lt_le_trans with (2 ^ 53); [lia | apply Z.pow_le_mono_r; lia].
Qed.

Lemma ToInt16_m32768 : ToInt16 (S754_finite true 4503599627370496 (-37)) = -32768.
Proof. reflexivity. Qed.

Lemma ToInt16_32767 :
  ToInt16 (Math_max (S754_finite true 4503599627370496 (-37))
             (S754_finite false 9006924376834048 (-38))) = 32767.
Proof. reflexivity. Qed.

Lemma clamp_store_canonical (s : bool) (M : positive) (E : Z) :
  Zpos (digits2_pos M) = 53 ->
  ToInt16 (Math_max cm32768 (Math_min c32767 (S754_finite s M E)))
  = clamp (-32768) 32767 (cond_Zopp s (Z.shiftl (Zpos M) E)).
Proof.
  intros HM. apply digits2_bounds in HM.
  change (53 - 1) with 52 in HM.
  assert (H15 : 2 ^ 15 = 32768) by reflexivity.
  assert (H14 : 2 ^ 14 = 16384) by reflexivity.
  assert (H16 : 2 ^ 16 = 65536) by reflexivity.
  assert (Hnn : 0 <= Z.shiftl (Zpos M) E) by (apply Z.shiftl_nonneg; lia).
  unfold c32767, cm32768, clamp.
  destruct s; cbn [cond_Zopp].
  - (* negative sample *)
    unfold Math_min. cbn [SFcompare]. unfold Math_max. cbn [SFcompare].
    destruct (Z.compare_spec (-37) E) as [HE | HE | HE].
    + subst E.
      assert (32768 <= Z.shiftl (Zpos M) (-37))
        by (rewrite <- H15; apply (shiftl_lower _ _ 37); lia).
      rewrite Pos.compare_cont_spec.
      destruct (Pos.compare_spec 4503599627370496 M) as [HC | HC | HC];
        cbn [Pos.switch_Eq CompOpp];
        try (rewrite ToInt16_m32768; clear HC; lia).
      exfalso. apply Pos2Z.pos_lt_pos in HC. clear - HM HC. lia.
    + assert (32768 <= Z.shiftl (Zpos M) E).
      { pose proof (shiftl_lower (Zpos M) E 36) as Hl.
        change (2 ^ (52 - 36)) with 65536 in Hl. lia. }
      rewrite ToInt16_m32768. lia.
    + assert (Z.shiftl (Zpos M) E < 32768)
        by (rewrite <- H15; apply (shiftl_upper _ _ 38); lia).
      rewrite ToInt16_small by (try discriminate; lia). cbn [cond_Zopp]. lia.
  - (* positive sample *)
    unfold Math_min. cbn [SFcompare].
    destruct (Z.compare_spec (-38) E) as [HE | HE | HE].
    + subst E. rewrite Pos.compare_cont_spec.
      assert (Hdiv : Z.shiftl (Zpos M) (-38) = Zpos M / 2 ^ 38)
        by (apply Z.shiftl_div_pow2; lia).
      assert (Z.shiftl (Zpos M) (-38) < 32768)
        by (rewrite <- H15; apply (shiftl_upper _ _ 38); lia).
      destruct (Pos.compare_spec 9006924376834048 M) as [HC | HC | HC];
        cbn [Pos.switch_Eq]; [| apply Pos2Z.pos_lt_pos in HC ..].
      * subst M. reflexivity.
      * assert (32767 <= Z.shiftl (Zpos M) (-38)).
        { rewrite Hdiv. apply Z.div_le_lower_bound; [reflexivity|].
          change (2 ^ 38 * 32767) with 9006924376834048. lia. }
        rewrite ToInt16_32767. lia.
      * assert (Z.shiftl (Zpos M) (-38) < 32767).
        { rewrite Hdiv. apply Z.div_lt_upper_bound; [reflexivity|].
          change (2 ^ 38 * 32767) with 9006924376834048. lia. }
        unfold Math_max. cbn [SFcompare].
        rewrite ToInt16_small by lia. cbn [cond_Zopp]. lia.
    + assert (32768 <= Z.shiftl (Zpos M) E).
      { rewrite <- H15. apply (shiftl_lower _ _ 37); lia. }
      rewrite ToInt16_32767. lia.
    + assert (Z.shiftl (Zpos M) E < 16384)
        by (rewrite <- H14; apply (shiftl_upper _ _ 39); lia).
      unfold Math_max. cbn [SFcompare].
      rewrite ToInt16_small by lia. cbn [cond_Zopp]. lia.
Qed.

Lemma iter_xO_pow2 (m k : positive) : Zpos (Pos.iter xO m k) = Zpos m * 2 ^ Zpos k.
Proof.
  induction k as [|k IH] using Pos.peano_ind.
  - cbn [Pos.iter]. rewrite Z.pow_1_r. lia.
  - rewrite Pos.iter_succ, Pos2Z.inj_xO, IH, Pos2Z.inj_succ, Z.pow_succ_r by lia. ring.
Qed.

Lemma digits2_le (p : positive) (b : Z) :
  0 <= b -> Zpos p < 2 ^ b -> 1 <= Zpos (digits2_pos p) <= b.
Proof.
  intros Hb Hp. rewrite digits2_log2.
  pose proof (Z.log2_nonneg (Zpos p)).
  apply Z.log2_lt_pow2 in Hp; lia.
Qed.

(** Every positive integer of at most 53 bits has a 53-bit multiple by a
    power of two: the binary64 mantissa of the same value. *)
Lemma normalize53 (p : positive) :
  Zpos (digits2_pos p) <= 53 ->
  exists M, Zpos M = Zpos p * 2 ^ (53 - Zpos (digits2_pos p))
            /\ Zpos (digits2_pos M) = 53.
Proof.
  intros Hd. set (D := Zpos (digits2_pos p)) in *.
  assert (HD : Zpos (digits2_pos p) = D) by reflexivity.
  apply digits2_bounds in HD.
  assert (0 < 2 ^ (53 - D)) by (apply Z.pow_pos_nonneg; lia).
  exists (Z.to_pos (Zpos p * 2 ^ (53 - D))).
  assert (HM : Zpos (Z.to_pos (Zpos p * 2 ^ (53 - D))) = Zpos p * 2 ^ (53 - D))
    by (apply Z2Pos.id; lia).
  split; [exact HM|].
  apply digits2_bounds. rewrite HM.
  assert (1 <= D) by (unfold D; lia).
  replace (2 ^ (53 - 1)) with (2 ^ (D - 1) * 2 ^ (53 - D))
    by (rewrite <- Z.pow_add_r by lia; f_equal; lia).
  replace (2 ^ 53) with (2 ^ D * 2 ^ (53 - D))
    by (rewrite <- Z.pow_add_r by lia; f_equal; lia).
  nia.
Qed.

Lemma number_of_float32_finite (s : bool) (m : positive) (e : Z) :
  Zpos (digits2_pos m) <= 53 ->
  -1074 <= e + Zpos (digits2_pos m) - 53 <= 971 ->
  forall M, Zpos M = Zpos m * 2 ^ (53 - Zpos (digits2_pos m)) ->
            Zpos (digits2_pos M) = 53 ->
  number_of_float32 (S754_finite s m e)
  = S754_finite s M (e + Zpos (digits2_pos m) - 53).
Proof.
  intros Hd He M HM HdM.
  unfold number_of_float32, binary_round, shl_align, fexp, emin, prec64, emax64.
  set (D := Zpos (digits2_pos m)) in *.
  replace (Z.max (D + e - 53) (3 - 1024 - 53) - e) with (D - 53) by lia.
  replace (Z.max (D + e - 53) (3 - 1024 - 53)) with (e + D - 53) by lia.
  pose proof (binary_round_aux_exact s M 0 (e + D - 53) HdM (Z.le_refl 0)) as Hexact.
  rewrite Z.pow_0_r, Z.mul_1_r, Z.add_0_r in Hexact.
  unfold prec64, emax64 in Hexact.
  destruct (D - 53) as [|k|k] eqn:Hk; try lia.
  - replace (53 - D) with 0 in HM by lia. rewrite Z.pow_0_r, Z.mul_1_r in HM.
    injection HM as ->.
    replace e with (e + D - 53) at 1 by lia. apply Hexact. lia.
  - replace (53 - D) with (Zpos k) in HM by lia.
    rewrite <- iter_xO_pow2 in HM. injection HM as <-. apply Hexact. lia.
Qed.

(** The product with 32767 is exact: a 24-bit mantissa times a 15-bit
    constant fits the 53 bits of a Number. *)
Lemma js_mul_32767_exact (s : bool) (m : positive) (e : Z) :
  Zpos m < 2 ^ 24 -> -149 <= e <= 104 ->
  exists (M : positive) (j : Z),
    js_mul (number_of_float32 (S754_finite s m e)) (number_of_Z 32767)
    = S754_finite s M (e - j)
    /\ 0 <= j /\ Zpos M = Zpos m * 32767 * 2 ^ j /\ Zpos (digits2_pos M) = 53.
Proof.
  intros Hm He.
  pose proof (digits2_le m 24 ltac:(lia) Hm) as Hd.
  destruct (normalize53 m ltac:(lia)) as (M1 & HM1 & HdM1).
  rewrite (number_of_float32_finite s m e ltac:(lia) ltac:(lia) M1 HM1 HdM1).
  assert (Hp : Zpos (m * 32767) < 2 ^ 39).
  { rewrite Pos2Z.inj_mul. change (2 ^ 39) with (2 ^ 24 * 32768). lia. }
  pose proof (digits2_le (m * 32767) 39 ltac:(lia) Hp) as HD.
  destruct (normalize53 (m * 32767) ltac:(lia)) as (M & HM & HdM).
  set (d := Zpos (digits2_pos m)) in *.
  set (D := Zpos (digits2_pos (m * 32767))) in *.
  assert (HdD : d <= D).
  { unfold d, D. rewrite !digits2_log2.
    apply Z.add_le_mono_r, Z.log2_le_mono. lia. }
  exists M, (53 - D). split; [|split; [lia|split; [|exact HdM]]].
  - rewrite number_32767. unfold c32767, js_mul. cbn [SFmul].
    rewrite xorb_false_r.
    replace (Zpos (M1 * 9006924376834048)) with (Zpos M * 2 ^ (38 + D - d)).
    + rewrite binary_round_aux_exact by (try assumption; lia).
      f_equal. lia.
    + rewrite Pos2Z.inj_mul, HM, HM1, Pos2Z.inj_mul.
      assert (Hpow : 2 ^ (53 - D) * 2 ^ (38 + D - d) = 2 ^ (53 - d) * 2 ^ 38).
      { rewrite <- !Z.pow_add_r by lia. f_equal. lia. }
      change (Zpos 9006924376834048) with (32767 * 2 ^ 38).
      transitivity (Zpos m * 32767 * (2 ^ (53 - D) * 2 ^ (38 + D - d))); [ring|].
      rewrite Hpow. ring.
  - rewrite HM, Pos2Z.inj_mul. reflexivity.
Qed.

Lemma shiftl_scaled (p j e : Z) :
  0 <= j -> Z.shiftl (p * 2 ^ j) (e - j) = Z.shiftl p e.
Proof.
  intros Hj. rewrite <- Z.shiftl_mul_pow2 by assumption.
  rewrite Z.shiftl_shiftl by assumption. f_equal. lia.
Qed.

(** The conversion of one finite sample, in integer arithmetic: the
    integer part of [m * 32767 * 2^e], with the sign, clamped. *)
Lemma convert_sample_finite (s : bool) (m : positive) (e : Z) :
  Zpos m < 2 ^ 24 -> -149 <= e <= 104 ->
  convert_sample (S754_finite s m e)
  = clamp (-32768) 32767 (cond_Zopp s (Z.shiftl (Zpos m * 32767) e)).
Proof.
  intros Hm He. unfold convert_sample.
  destruct (js_mul_32767_exact s m e Hm He) as (M & j & -> & Hj & HM & HdM).
  rewrite number_32767, number_m32768, clamp_store_canonical by assumption.
  rewrite HM, shiftl_scaled by assumption. reflexivity.
Qed.

Lemma float32_of_bits_range (w : Z) : is_float32 (float32_of_bits w).
Proof.
  unfold float32_of_bits.
  assert (Hf : 0 <= Z.land w 8388607 < 2 ^ 23).
  { change 8388607 with (Z.ones 23). rewrite Z.land_ones by lia.
    apply Z.mod_pos_bound. reflexivity. }
  assert (He : 0 <= Z.land (Z.shiftr w 23) 255 < 2 ^ 8).
  { change 255 with (Z.ones 8). rewrite Z.land_ones by lia.
    apply Z.mod_pos_bound. reflexivity. }
  set (f := Z.land w 8388607) in *. set (e := Z.land (Z.shiftr w 23) 255) in *.
  destruct (Z.eqb_spec e 255); [destruct (f =? 0); exact I|].
  destruct (Z.eqb_spec e 0).
  - destruct f as [|m|m] eqn:Hm; cbn [is_float32]; try exact I.
    change (2 ^ 23) with 8388608 in Hf. change (2 ^ 24) with 16777216. lia.
  - destruct (Z.lor f 8388608) as [|m|m] eqn:Hm; cbn [is_float32]; try exact I.
    change (2 ^ 8) with 256 in He. split; [|lia].
    rewrite <- Hm. apply Z.log2_lt_pow2; [rewrite Hm; lia|].
    rewrite Z.log2_lor by lia. change (Z.log2 8388608) with 23.
    destruct (Z.eq_dec f 0) as [->|]; [cbn; lia|].
    assert (Z.log2 f < 23) by (apply Z.log2_lt_pow2; lia). lia.
Qed.

Lemma Qtrunc_scaled (s : bool) (m : positive) (e : Z) :
  Qtrunc (F2Q (S754_finite s m e) * inject_Z 32767)%Q
  = cond_Zopp s (Z.shiftl (Zpos m * 32767) e).
Proof.
  unfold Qtrunc, F2Q. destruct e as [|p|p].
  - cbn [Qmult Qnum Qden inject_Z Pos.mul]. rewrite Z.pow_0_r, Z.mul_1_r, Z.quot_1_r.
    rewrite Z.shiftl_0_r. destruct s; cbn [cond_Zopp]; lia.
  - cbn [Qmult Qnum Qden inject_Z Pos.mul]. rewrite Z.quot_1_r.
    rewrite Z.shiftl_mul_pow2 by lia. destruct s; cbn [cond_Zopp]; ring.
  - cbn [Qmult Qnum Qden inject_Z]. rewrite Pos.mul_1_r, Pos2Z.inj_pow.
    change (Zneg p) with (- Zpos p). rewrite Z.shiftl_div_pow2 by lia.
    rewrite Z.opp_involutive.
    assert (0 < 2 ^ Zpos p) by (apply Z.pow_pos_nonneg; lia).
    destruct s; cbn [cond_Zopp].
    + rewrite Z.mul_opp_l, Z.quot_opp_l, Z.quot_div_nonneg by lia. reflexivity.
    + rewrite Z.quot_div_nonneg by lia. reflexivity.
Qed.

(** Per sample, the loop body computes [clamp(trunc(x * 32767))]. *)
Lemma convert_sample_trunc (x : spec_float) :
  is_float32 x -> convert_sample x = sample_trunc x.
Proof.
  destruct x as [s|s| |s m e]; intros Hx.
  - destruct s; reflexivity.
  - destruct s; reflexivity.
  - reflexivity.
  - destruct Hx as [Hm He]. unfold sample_trunc.
    rewrite Qtrunc_scaled. apply convert_sample_finite; assumption.
Qed.

(** ** Frames *)

Lemma length_cons4 (b0 b1 b2 b3 : byte) (rest : Buffer) :
  (List.length (b0 :: b1 :: b2 :: b3 :: rest) / 4 = S (List.length rest / 4))%nat.
Proof.
  change (List.length (b0 :: b1 :: b2 :: b3 :: rest))
    with (1 * 4 + List.length rest)%nat.
  rewrite Nat.div_add_l by lia. lia.
Qed.

Lemma float32Array_length (b : Buffer) :
  List.length (float32Array_of b) = (List.length b / 4)%nat.
Proof.
  assert (H : forall n (b : Buffer), (List.length b <= n)%nat ->
              List.length (float32Array_of b) = (List.length b / 4)%nat).
  { clear b. induction n as [|n IH]; intros b Hb.
    - destruct b; [reflexivity | cbn in Hb; lia].
    - destruct b as [|b0 [|b1 [|b2 [|b3 rest]]]]; try reflexivity.
      rewrite length_cons4. cbn [float32Array_of List.length].
      rewrite IH by (cbn [List.length] in Hb; lia). reflexivity. }
  apply (H (List.length b)). lia.
Qed.

Lemma float32Array_nth (i : nat) : forall (b : Buffer),
  (i < List.length b / 4)%nat ->
  nth i (float32Array_of b) S754_nan
  = float32_of_bits
      (word32_le (nth (4 * i) b x00) (nth (4 * i + 1) b x00)
                 (nth (4 * i + 2) b x00) (nth (4 * i + 3) b x00)).
Proof.
  induction i as [|i IH]; intros b Hi;
    destruct b as [|b0 [|b1 [|b2 [|b3 rest]]]];
    try (exfalso; cbn in Hi; lia).
  - reflexivity.
  - rewrite length_cons4 in Hi. cbn [float32Array_of nth].
    rewrite IH by lia.
    replace (4 * S i)%nat with (S (S (S (S (4 * i))))) by lia.
    reflexivity.
Qed.

Lemma float32Array_range (b : Buffer) : Forall is_float32 (float32Array_of b).
Proof.
  assert (H : forall n (b : Buffer), (List.length b <= n)%nat ->
              Forall is_float32 (float32Array_of b)).
  { clear b. induction n as [|n IH]; intros b Hb.
    - destruct b; [constructor | cbn in Hb; lia].
    - destruct b as [|b0 [|b1 [|b2 [|b3 rest]]]]; try constructor.
      + apply float32_of_bits_range.
      + apply IH. cbn [List.length] in Hb. lia. }
  apply (H (List.length b)). lia.
Qed.

Lemma ToInt16_range (y : spec_float) : -32768 <= ToInt16 y <= 32767.
Proof.
  unfold ToInt16.
  pose proof (Z.mod_pos_bound (truncate y) 65536 eq_refl).
  destruct (Z.leb_spec 32768 (truncate y mod 65536)); lia.
Qed.

Lemma byte_val_of_Z (z : Z) : byte_val (byte_of_Z z) = z mod 256.
Proof.
  unfold byte_val, byte_of_Z.
  pose proof (Z.mod_pos_bound z 256 eq_refl) as Hz.
  destruct (Byte.of_N (Z.to_N (z mod 256))) as [b|] eqn:Hb.
  - apply Byte.to_of_N in Hb. rewrite Hb. apply Z2N.id. lia.
  - apply Byte.of_N_None_iff in Hb. lia.
Qed.

(** Reading back the bytes of an [Int16Array] gives its elements. *)
Lemma int16_samples_bytes (l : list Z) :
  Forall (fun v => -32768 <= v <= 32767) l ->
  int16_samples (Buffer_from l) = l.
Proof.
  induction 1 as [|v l Hv _ IH]; [reflexivity|].
  unfold Buffer_from in *. cbn [flat_map int16_bytes app int16_samples].
  rewrite IH, !byte_val_of_Z. f_equal.
  pose proof (Z.mod_pos_bound v 65536 eq_refl) as Hu.
  set (u := v mod 65536) in *.
  assert (Hlo : u mod 256 + 256 * ((u / 256) mod 256) = u).
  { rewrite (Z.mod_small (u / 256)).
    - rewrite Z.add_comm. symmetry. apply Z.div_mod. lia.
    - split; [apply Z.div_pos; lia | apply Z.div_lt_upper_bound; lia]. }
  rewrite Hlo. unfold u.
  destruct (Z.leb_spec 32768 (v mod 65536)) as [Hs | Hs].
  - assert (v < 0).
    { destruct (Z.ltb_spec v 0); [assumption|]. rewrite Z.mod_small in Hs; lia. }
    replace v with (v + 65536 + (-1) * 65536) at 1 by ring.
    rewrite Z.mod_add, Z.mod_small; lia.
  - destruct (Z.ltb_spec v 0).
    + replace v with (v + 65536 + (-1) * 65536) in Hs by ring.
      rewrite Z.mod_add, Z.mod_small in Hs; lia.
    + apply Z.mod_small. lia.
Qed.

Lemma int16Array_range (l : list spec_float) :
  Forall (fun v => -32768 <= v <= 32767) (int16Array_of l).
Proof.
  unfold int16Array_of. apply Forall_forall. intros v Hv.
  apply in_map_iff in Hv. destruct Hv as (x & <- & _).
  apply ToInt16_range.
Qed.

(** ** Audio frames through the session *)

Lemma processAndSendAudio_ready (s : Session) (st : Stream) (frame : Buffer) :
  recognizeStream s = Some st -> destroyed st = false -> writable st = true ->
  (List.length frame mod 4 = 0)%nat ->
  Server.processAndSendAudio s frame
  = (s, [StreamWrite (sid st)
           (Buffer_from (int16Array_of (float32Array_of frame)))]).
Proof.
  intros Hs Hd Hw Hlen. unfold Server.processAndSendAudio.
  rewrite Hlen, Hs, Hd, Hw. reflexivity.
Qed.

Lemma ws_on_message_ready (JSON_parse : string -> option json)
  (s : Session) (st : Stream) (frame : Buffer) (create_throws : bool) :
  recognizeStream s = Some st -> destroyed st = false -> writable st = true ->
  Server.ws_on_message JSON_parse s (MBuffer frame) create_throws
  = Server.processAndSendAudio s frame.
Proof.
  intros Hs Hd Hw. unfold Server.ws_on_message. rewrite Hs, Hd, Hw. reflexivity.
Qed.

(** ** Invariants of the event loop *)

Ltac break_match :=
  repeat match goal with
    | |- context [match ?x with _ => _ end] => destruct x eqn:?
    | H : context [match ?x with _ => _ end] |- _ => destruct x eqn:?
    end.

Ltac unfold_server :=
  unfold Server.step, Server.ws_on_message, Server.first_chunk_timeout,
    Server.processAndSendAudio, Server.startGoogleStream, Server.ws_on_close,
    Server.ws_on_error, Server.stream_on_error, Server.stream_on_data,
    Server.stream_on_end, Server.stream_on_close,
    Relay.stream_on_data, stream_state, stream_ready, send_if_open in *.

Ltac unfold_legacy :=
  unfold Legacy.step, Legacy.ws_on_message, Legacy.first_chunk_timeout,
    Legacy.startGoogleStream, Legacy.ws_on_close,
    Legacy.ws_on_error, Legacy.stream_on_error, Legacy.stream_on_data,
    Legacy.stream_on_end,
    Relay.stream_on_data, stream_state, stream_ready, send_if_open in *.

Ltac pair_inv :=
  repeat match goal with
    | H : (_, _) = (_, _) |- _ => inversion H; subst; clear H
    end.

Ltac in_cases :=
  repeat match goal with
    | H : In _ (_ ++ _) |- _ => apply in_app_or in H; destruct H
    | H : In _ (_ :: _) |- _ => destruct H
    | H : In _ [] |- _ => destruct H
    | H : False |- _ => destruct H
    | H : _ \/ _ |- _ => destruct H
    | H : _ /\ _ |- _ => destruct H
    end.

Section ServerInvariants.

Variable JSON_parse : string -> option json.

Local Abbreviation step := (Server.step JSON_parse).
Local Abbreviation run := (Server.run JSON_parse).

Lemma server_run_app (s : Session) (evs1 evs2 : list event) :
  run s (evs1 ++ evs2)
  = (fst (run (fst (run s evs1)) evs2),
     snd (run s evs1) ++ snd (run (fst (run s evs1)) evs2)).
Proof.
  revert s. induction evs1 as [|e evs1 IH]; intros s.
  - cbn. destruct (run s evs2); reflexivity.
  - cbn [app Server.run].
    destruct (step s e) as [s1 a1].
    rewrite IH. destruct (run s1 evs1) as [s2 a2]. cbn [fst snd].
    rewrite app_assoc. reflexivity.
Qed.

Lemma server_step_latest (s : Session) (e : event) :
  holds_latest s -> holds_latest (fst (step s e)).
Proof.
  unfold holds_latest. intros Hs st.
  destruct e; unfold_server; break_match; pair_inv; cbn; intros Hst;
    try discriminate; try (apply Hs; congruence);
    try (injection Hst as <-; cbn; auto; fail).
Qed.

Lemma server_reachable_latest (s : Session) :
  Server.reachable JSON_parse s -> holds_latest s.
Proof.
  intros [evs <-]. induction evs as [|e evs IH] using rev_ind.
  - intros st Hst. discriminate.
  - rewrite server_run_app. cbn [fst Server.run].
    destruct (step (fst (run init evs)) e) as [s1 a1] eqn:Hstep.
    cbn [fst]. change s1 with (fst (s1, a1)). rewrite <- Hstep.
    apply server_step_latest, IH.
Qed.

(** A handler creates a stream only when the reference is null, names it
    with the next identifier, and creates at most one. *)
Lemma server_step_create (s : Session) (e : event) (id : nat) :
  In (StreamingRecognize id) (snd (step s e)) ->
  recognizeStream s = None /\ id = next_sid s
  /\ filter is_create (snd (step s e)) = [StreamingRecognize id].
Proof.
  destruct e; unfold_server; break_match; pair_inv; cbn; intros H; in_cases;
    try discriminate; try contradiction.
  all: try (match goal with H : StreamingRecognize _ = StreamingRecognize _ |- _ =>
                              injection H as <- end; auto).
Qed.

(** Only a binary message of the client makes a handler create a stream. *)
Lemma server_step_no_retry (s : Session) (e : event) :
  is_audio e = false -> filter is_create (snd (step s e)) = [].
Proof.
  destruct e; unfold_server; break_match; pair_inv; cbn; intros H;
    try discriminate; reflexivity.
Qed.

Lemma server_run_no_retry (evs : list event) : forall s,
  forallb (fun e => negb (is_audio e)) evs = true ->
  filter is_create (snd (run s evs)) = [].
Proof.
  induction evs as [|e evs IH]; intros s H; [reflexivity|].
  cbn [forallb] in H. apply andb_prop in H. destruct H as [He Hevs].
  cbn [Server.run].
  pose proof (server_step_no_retry s e) as Hstep.
  destruct (step s e) as [s1 a1].
  specialize (IH s1 Hevs). destruct (run s1 evs) as [s2 a2].
  cbn [snd] in *. rewrite filter_app, IH, Hstep; [reflexivity|].
  destruct (is_audio e); [discriminate | reflexivity].
Qed.

(** A handler writes only to the stream the session holds. *)
Lemma server_step_write (s : Session) (e : event) (h : nat) (data : Buffer) :
  In (StreamWrite h data) (snd (step s e)) ->
  exists st, recognizeStream s = Some st /\ sid st = h.
Proof.
  destruct e; unfold_server; break_match; pair_inv; cbn; intros H; in_cases;
    try discriminate; try contradiction.
  all: match goal with H : StreamWrite _ _ = StreamWrite _ _ |- _ =>
                         injection H as <- _ end.
  all: cbn in *; eexists; split; [first [eassumption | reflexivity] | reflexivity].
Qed.

Lemma server_step_released (s : Session) (e : event) (h : nat) :
  released h s -> released h (fst (step s e)).
Proof.
  unfold released. intros [Hlt Hne].
  destruct e; unfold_server; break_match; pair_inv; cbn; (split; [lia|]);
    intros st' Hst';
    try discriminate; try (apply Hne; congruence).
  all: try (injection Hst' as <-; cbn; try lia; apply Hne;
            first [assumption | reflexivity]).
Qed.

Lemma server_run_released (evs : list event) : forall (s : Session) (h : nat),
  released h s ->
  forall data, ~ In (StreamWrite h data) (snd (run s evs)).
Proof.
  induction evs as [|e evs IH]; intros s h Hrel data; [intros []|].
  cbn [Server.run].
  pose proof (server_step_released s e h Hrel) as Hnext.
  pose proof (server_step_write s e h data) as Hw.
  destruct (step s e) as [s1 a1].
  specialize (IH s1 h Hnext data).
  destruct (run s1 evs) as [s2 a2]. cbn [fst snd] in *.
  intros Hin. apply in_app_or in Hin. destruct Hin as [Hin | Hin]; [|exact (IH Hin)].
  destruct (Hw Hin) as (st & Hst & Hsid). destruct Hrel as [_ Hne].
  exact (Hne st Hst Hsid).
Qed.

End ServerInvariants.

Section LegacyInvariants.

Variable JSON_parse : string -> option json.

Local Abbreviation step := (Legacy.step JSON_parse).
Local Abbreviation run := (Legacy.run JSON_parse).

Lemma legacy_run_app (s : Session) (evs1 evs2 : list event) :
  run s (evs1 ++ evs2)
  = (fst (run (fst (run s evs1)) evs2),
     snd (run s evs1) ++ snd (run (fst (run s evs1)) evs2)).
Proof.
  revert s. induction evs1 as [|e evs1 IH]; intros s.
  - cbn. destruct (run s evs2); reflexivity.
  - cbn [app Legacy.run].
    destruct (step s e) as [s1 a1].
    rewrite IH. destruct (run s1 evs1) as [s2 a2]. cbn [fst snd].
    rewrite app_assoc. reflexivity.
Qed.

Lemma legacy_step_latest (s : Session) (e : event) :
  holds_latest s -> holds_latest (fst (step s e)).
Proof.
  unfold holds_latest. intros Hs st.
  destruct e; unfold_legacy; break_match; pair_inv; cbn; intros Hst;
    try discriminate; try (apply Hs; congruence);
    try (injection Hst as <-; cbn; auto; fail).
Qed.

Lemma legacy_reachable_latest (s : Session) :
  Legacy.reachable JSON_parse s -> holds_latest s.
Proof.
  intros [evs <-]. induction evs as [|e evs IH] using rev_ind.
  - intros st Hst. discriminate.
  - rewrite legacy_run_app. cbn [fst Legacy.run].
    destruct (step (fst (run init evs)) e) as [s1 a1] eqn:Hstep.
    cbn [fst]. change s1 with (fst (s1, a1)). rewrite <- Hstep.
    apply legacy_step_latest, IH.
Qed.

Lemma legacy_step_no_retry (s : Session) (e : event) :
  is_audio e = false -> filter is_create (snd (step s e)) = [].
Proof.
  destruct e; unfold_legacy; break_match; pair_inv; cbn; intros H;
    try discriminate; reflexivity.
Qed.

Lemma legacy_run_no_retry (evs : list event) : forall s,
  forallb (fun e => negb (is_audio e)) evs = true ->
  filter is_create (snd (run s evs)) = [].
Proof.
  induction evs as [|e evs IH]; intros s H; [reflexivity|].
  cbn [forallb] in H. apply andb_prop in H. destruct H as [He Hevs].
  cbn [Legacy.run].
  pose proof (legacy_step_no_retry s e) as Hstep.
  destruct (step s e) as [s1 a1].
  specialize (IH s1 Hevs). destruct (run s1 evs) as [s2 a2].
  cbn [snd] in *. rewrite filter_app, IH, Hstep; [reflexivity|].
  destruct (is_audio e); [discriminate | reflexivity].
Qed.

Lemma legacy_step_write (s : Session) (e : event) (h : nat) (data : Buffer) :
  In (StreamWrite h data) (snd (step s e)) ->
  exists st, recognizeStream s = Some st /\ sid st = h.
Proof.
  destruct e; unfold_legacy; break_match; pair_inv; cbn; intros H; in_cases;
    try discriminate; try contradiction.
  all: match goal with H : StreamWrite _ _ = StreamWrite _ _ |- _ =>
                         injection H as <- _ end.
  all: cbn in *; eexists; split; [first [eassumption | reflexivity] | reflexivity].
Qed.

Lemma legacy_step_released (s : Session) (e : event) (h : nat) :
  released h s -> released h (fst (step s e)).
Proof.
  unfold released. intros [Hlt Hne].
  destruct e; unfold_legacy; break_match; pair_inv; cbn; (split; [lia|]);
    intros st' Hst';
    try discriminate; try (apply Hne; congruence).
  all: try (injection Hst' as <-; cbn; try lia; apply Hne;
            first [assumption | reflexivity]).
Qed.

Lemma legacy_run_released (evs : list event) : forall (s : Session) (h : nat),
  released h s ->
  forall data, ~ In (StreamWrite h data) (snd (run s evs)).
Proof.
  induction evs as [|e evs IH]; intros s h Hrel data; [intros []|].
  cbn [Legacy.run].
  pose proof (legacy_step_released s e h Hrel) as Hnext.
  pose proof (legacy_step_write s e h data) as Hw.
  destruct (step s e) as [s1 a1].
  specialize (IH s1 h Hnext data).
  destruct (run s1 evs) as [s2 a2]. cbn [fst snd] in *.
  intros Hin. apply in_app_or in Hin. destruct Hin as [Hin | Hin]; [|exact (IH Hin)].
  destruct (Hw Hin) as (st & Hst & Hsid). destruct Hrel as [_ Hne].
  exact (Hne st Hst Hsid).
Qed.

End LegacyInvariants.

Lemma released_after_drop (s : Session) (st : Stream) :
  recognizeStream s = Some st -> holds_latest s ->
  released (sid st) (set_recognizeStream s None).
Proof.
  intros Hs Hl. split; cbn; [specialize (Hl st Hs); lia | discriminate].
Qed.

(** ** The claims *)

(** C1 (as stated, refuted): the sample 0.25 (bytes 00 00 80 3E) scales to
    8191.75; the code stores 8191 where rounding to the nearest integer
    gives 8192. *)
Lemma C1_round_counterexample :
  let frame := [x00; x00; x80; x3e] in
  (List.length frame mod 4 = 0)%nat
  /\ (F2Q (nth 0 (float32Array_of frame) S754_nan) * inject_Z 32767 == 32767 # 4)%Q
  /\ nth 0 (int16Array_of (float32Array_of frame)) 0 = 8191
  /\ sample_round (nth 0 (float32Array_of frame) S754_nan) = 8192
  /\ nth 0 (int16Array_of (float32Array_of frame)) 0
     <> sample_round (nth 0 (float32Array_of frame) S754_nan).
Proof.
  cbv zeta. split; [reflexivity|]. split; [vm_compute; reflexivity|].
  split; [vm_compute; reflexivity|]. split; [vm_compute; reflexivity|].
  vm_compute. discriminate.
Qed.

(** C1 (amended): for every frame whose length is a multiple of 4, the
    conversion yields one 16-bit sample per four bytes; sample [i] is
    computed from the [i]-th little-endian binary32 value alone and equals
    [clamp(trunc(input[i] * 32767), -32768, 32767)], where [trunc] drops the
    fraction (NaN gives 0); these are the samples carried by the bytes
    written upstream, by [processAndSendAudio] and by the message handler of
    the older variant alike. *)
Theorem C1_conversion_truncates (JSON_parse : string -> option json)
  (frame : Buffer) :
  (List.length frame mod 4 = 0)%nat ->
  let float32Array := float32Array_of frame in
  let int16Array := int16Array_of float32Array in
  List.length int16Array = (List.length frame / 4)%nat
  /\ (forall i, (i < List.length frame / 4)%nat ->
        nth i float32Array S754_nan
        = float32_of_bits
            (word32_le (nth (4 * i) frame x00) (nth (4 * i + 1) frame x00)
                       (nth (4 * i + 2) frame x00) (nth (4 * i + 3) frame x00))
        /\ nth i int16Array 0 = sample_trunc (nth i float32Array S754_nan))
  /\ int16_samples (Buffer_from int16Array) = int16Array
  /\ (forall s st create_throws,
        recognizeStream s = Some st -> destroyed st = false -> writable st = true ->
        Server.processAndSendAudio s frame
        = (s, [StreamWrite (sid st) (Buffer_from int16Array)])
        /\ Legacy.ws_on_message JSON_parse s (MBuffer frame) create_throws
           = (s, [StreamWrite (sid st) (Buffer_from int16Array)])).
Proof.
  intros Hlen float32Array int16Array. subst float32Array int16Array.
  split; [|split; [|split]].
  - unfold int16Array_of. rewrite length_map. apply float32Array_length.
  - intros i Hi. split; [apply float32Array_nth, Hi|].
    unfold int16Array_of.
    change 0 with (convert_sample S754_nan).
    rewrite map_nth. apply convert_sample_trunc.
    rewrite float32Array_nth by assumption. apply float32_of_bits_range.
  - apply int16_samples_bytes, int16Array_range.
  - intros s st create_throws Hs Hd Hw. split.
    + apply processAndSendAudio_ready; assumption.
    + unfold Legacy.ws_on_message. rewrite Hs, Hd, Hw. reflexivity.
Qed.

Lemma C1_conversion_truncates_witness :
  let frame := [x00; x00; x80; x3e; xff; xff; x7f; xbf] in
  (List.length frame mod 4 = 0)%nat
  /\ List.length (int16Array_of (float32Array_of frame)) = (List.length frame / 4)%nat.
Proof.
  split; [reflexivity|].
  exact (proj1 (C1_conversion_truncates (fun _ => None)
                  [x00; x00; x80; x3e; xff; xff; x7f; xbf] eq_refl)).
Defined.

(** C2 (as stated, refuted): a 7-byte frame received while the session
    holds no upstream handle starts the upstream stream, so the session
    state changes; and if the creation throws, an error message is sent to
    the client. *)
Lemma C2_idle_frame_counterexample :
  let frame := repeat x00 7 in
  (List.length frame mod 4 <> 0)%nat
  /\ Server.ws_on_message (fun _ => None) init (MBuffer frame) false
     = ({| recognizeStream := Some {| sid := 0; destroyed := false; writable := true |};
           readyState := OPEN; timers := [frame]; next_sid := 1 |},
        [StreamingRecognize 0; SetTimeout 150])
  /\ fst (Server.ws_on_message (fun _ => None) init (MBuffer frame) false) <> init
  /\ snd (Server.ws_on_message (fun _ => None) init (MBuffer frame) true)
     = [WsSend (ErrorMsg "Internal failure starting transcription service.");
        SetTimeout 150].
Proof.
  cbv zeta. split; [cbn; discriminate|]. split; [reflexivity|].
  split; [cbn; discriminate | reflexivity].
Qed.

(** C2 (amended): a binary frame whose length is not a multiple of 4 is
    never written upstream, neither by the message handler nor by the
    deferred first-chunk callback, which leaves the state as it is. When the
    session holds an upstream handle the frame changes nothing and nothing
    is sent to the client. When the handle is absent the frame starts the
    upstream stream as any first frame does: the actions and the resulting
    handle do not depend on the frame. *)
Theorem C2_malformed_frame (JSON_parse : string -> option json)
  (s : Session) (frame : Buffer) (create_throws : bool) :
  (List.length frame mod 4 <> 0)%nat ->
  filter is_write
    (snd (Server.ws_on_message JSON_parse s (MBuffer frame) create_throws)) = []
  /\ (forall s', Server.first_chunk_timeout s' frame = (s', []))
  /\ (recognizeStream s <> None ->
      Server.ws_on_message JSON_parse s (MBuffer frame) create_throws = (s, []))
  /\ (recognizeStream s = None ->
      forall other : Buffer,
        snd (Server.ws_on_message JSON_parse s (MBuffer frame) create_throws)
        = snd (Server.ws_on_message JSON_parse s (MBuffer other) create_throws)
        /\ recognizeStream
             (fst (Server.ws_on_message JSON_parse s (MBuffer frame) create_throws))
           = recognizeStream
               (fst (Server.ws_on_message JSON_parse s (MBuffer other) create_throws))).
Proof.
  intros Hlen.
  assert (Hdrop : forall s', Server.processAndSendAudio s' frame = (s', [])).
  { intros s'. unfold Server.processAndSendAudio.
    destruct (Nat.eqb_spec (List.length frame mod 4) 0); [contradiction | reflexivity]. }
  split; [|split; [|split]].
  - unfold Server.ws_on_message. destruct (recognizeStream s) as [st|] eqn:Hs.
    + destruct (destroyed st); [reflexivity|].
      destruct (negb false && writable st); [rewrite Hdrop|]; reflexivity.
    + unfold Server.startGoogleStream, send_if_open.
      destruct create_throws; [destruct (is_open s)|]; reflexivity.
  - intros s'. unfold Server.first_chunk_timeout.
    destruct (stream_ready s'); [apply Hdrop | reflexivity].
  - intros Hs. unfold Server.ws_on_message.
    destruct (recognizeStream s) as [st|]; [|contradiction].
    destruct (destroyed st); [reflexivity|].
    destruct (negb false && writable st); [apply Hdrop | reflexivity].
  - intros Hs other. unfold Server.ws_on_message. rewrite Hs.
    destruct (Server.startGoogleStream s create_throws) as [s1 started].
    split; reflexivity.
Qed.

Lemma C2_malformed_frame_witness :
  (List.length (repeat x00 7) mod 4 <> 0)%nat
  /\ Server.ws_on_message (fun _ => None) (streaming 0) (MBuffer (repeat x00 7)) false
     = (streaming 0, []).
Proof.
  assert (H : (List.length (repeat x00 7) mod 4 <> 0)%nat) by (cbn; discriminate).
  split; [exact H|].
  apply (C2_malformed_frame (fun _ => None) (streaming 0) (repeat x00 7) false H).
  cbn. discriminate.
Defined.

Lemma silent_frame_bytes :
  Buffer_from (int16Array_of (float32Array_of (repeat x00 4000))) = repeat x00 2000.
Proof. vm_compute. reflexivity. Qed.

(** C3 (as stated, refuted): the write made for a 4000-byte silent frame
    carries 1000 samples, not 2000. *)
Lemma C3_sample_count_counterexample :
  exists data,
    snd (Server.ws_on_message (fun _ => None) (streaming 0)
           (MBuffer (repeat x00 4000)) false)
    = [StreamWrite 0 data]
    /\ List.length (int16_samples data) = 1000%nat
    /\ int16_samples data <> repeat 0 2000.
Proof.
  exists (repeat x00 2000). split; [vm_compute; reflexivity|].
  split; [vm_compute; reflexivity|].
  intros H. apply (f_equal (@List.length Z)) in H.
  vm_compute in H. discriminate.
Qed.

(** C3 (amended): a 4000-byte all-zero frame received while the upstream
    stream is writable leaves the session as it is and makes exactly one
    upstream write, of 2000 zero bytes, that is 1000 zero-valued 16-bit
    samples; nothing is sent to the client. *)
Theorem C3_silent_frame (JSON_parse : string -> option json)
  (s : Session) (st : Stream) (create_throws : bool) :
  recognizeStream s = Some st -> destroyed st = false -> writable st = true ->
  Server.ws_on_message JSON_parse s (MBuffer (repeat x00 4000)) create_throws
  = (s, [StreamWrite (sid st) (repeat x00 2000)])
  /\ int16_samples (repeat x00 2000) = repeat 0 1000
  /\ filter is_send
       (snd (Server.ws_on_message JSON_parse s (MBuffer (repeat x00 4000))
               create_throws)) = [].
Proof.
  intros Hs Hd Hw.
  assert (Hmsg : Server.ws_on_message JSON_parse s (MBuffer (repeat x00 4000))
                   create_throws
                 = (s, [StreamWrite (sid st) (repeat x00 2000)])).
  { rewrite (ws_on_message_ready _ s st) by assumption.
    rewrite (processAndSendAudio_ready s st) by (try assumption; reflexivity).
    rewrite silent_frame_bytes. reflexivity. }
  split; [exact Hmsg|]. split; [vm_compute; reflexivity|].
  rewrite Hmsg. reflexivity.
Qed.

Lemma C3_silent_frame_witness :
  Server.ws_on_message (fun _ => None) (streaming 0)
    (MBuffer (repeat x00 4000)) false
  = (streaming 0, [StreamWrite 0 (repeat x00 2000)]).
Proof.
  exact (proj1 (C3_silent_frame (fun _ => None) (streaming 0)
                  {| sid := 0; destroyed := false; writable := true |} false
                  eq_refl eq_refl eq_refl)).
Defined.

(** C4: in every reachable state the session holds at most one upstream
    handle, and it is the stream created last; a handler creates a stream
    only when the session holds none, and then exactly one. *)
Theorem C4_single_upstream_handle (JSON_parse : string -> option json)
  (evs : list event) (e : event) :
  let s := fst (Server.run JSON_parse init evs) in
  (List.length (held s) <= 1)%nat
  /\ holds_latest s
  /\ (forall id, In (StreamingRecognize id) (snd (Server.step JSON_parse s e)) ->
        held s = [] /\ id = next_sid s
        /\ filter is_create (snd (Server.step JSON_parse s e))
           = [StreamingRecognize id]).
Proof.
  intros s. split; [|split].
  - unfold held. destruct (recognizeStream s); cbn; lia.
  - apply (server_reachable_latest JSON_parse). exists evs. reflexivity.
  - intros id Hin.
    destruct (server_step_create JSON_parse s e id Hin) as (Hnone & Hid & Hone).
    unfold held. rewrite Hnone. auto.
Qed.

(** C5 (as stated, refuted): after the client has disconnected, the close
    handler of [server.ts] has ended the stream and cleared the reference
    without destroying it; an error event of that stream then finds no
    reference, so nothing is destroyed (and nothing is sent, the socket
    being closed). Stream 0 is never destroyed in this run. *)
Lemma C5_no_destroy_counterexample :
  let evs := [ClientMessage (MBuffer []) false; TimerFires;
              SocketState CLOSED; ClientClose] in
  let s := fst (Server.run (fun _ => None) init evs) in
  snd (Server.run (fun _ => None) init evs)
  = [StreamingRecognize 0; SetTimeout 150; StreamWrite 0 []; StreamEnd 0]
  /\ recognizeStream s = None
  /\ snd (Server.stream_on_error s "quota") = []
  /\ ~ In (StreamDestroy 0)
         (snd (Server.run (fun _ => None) init (evs ++ [UpstreamError "quota"]))).
Proof.
  cbv zeta. split; [reflexivity|]. split; [reflexivity|]. split; [reflexivity|].
  cbn. intros H. repeat (destruct H as [H | H]; [discriminate|]). exact H.
Qed.

(** C5 (amended): on an upstream error event the handler sends exactly one
    error message, carrying the engine's message or the fallback text, if
    and only if the socket is open; then it destroys the stream the session
    still holds, if it holds one, and clears the reference. Afterwards no
    stream is created unless the client sends audio again. The older variant
    does the same with its own texts. *)
Theorem C5_upstream_error (JSON_parse : string -> option json)
  (s : Session) (err_message : string) :
  let detail (fallback : string) :=
    if String.eqb err_message EmptyString then fallback else err_message in
  let teardown :=
    match recognizeStream s with
    | Some st => [StreamDestroy (sid st)]
    | None => []
    end in
  (snd (Server.stream_on_error s err_message)
   = (if is_open s
      then [WsSend (ErrorMsg ("Google API Error: " ++ detail "Unknown error")%string)]
      else []) ++ teardown
   /\ recognizeStream (fst (Server.stream_on_error s err_message)) = None
   /\ forall evs, forallb (fun e => negb (is_audio e)) evs = true ->
        filter is_create
          (snd (Server.run JSON_parse (fst (Server.stream_on_error s err_message)) evs))
        = [])
  /\
  (snd (Legacy.stream_on_error s err_message)
   = (if is_open s
      then [WsSend (ErrorMsg ("Erro na API do Google: " ++ detail "Erro desconhecido")%string)]
      else []) ++ teardown
   /\ recognizeStream (fst (Legacy.stream_on_error s err_message)) = None
   /\ forall evs, forallb (fun e => negb (is_audio e)) evs = true ->
        filter is_create
          (snd (Legacy.run JSON_parse (fst (Legacy.stream_on_error s err_message)) evs))
        = []).
Proof.
  intros detail teardown. subst detail teardown. split.
  - split; [reflexivity|]. split; [reflexivity|].
    intros evs Hevs. apply server_run_no_retry, Hevs.
  - unfold Legacy.stream_on_error, send_if_open.
    destruct (recognizeStream s) as [st|] eqn:Hs; cbn [fst snd].
    + split; [reflexivity|]. split; [reflexivity|].
      intros evs Hevs. apply legacy_run_no_retry, Hevs.
    + rewrite app_nil_r. split; [reflexivity|]. split; [exact Hs|].
      intros evs Hevs. apply legacy_run_no_retry, Hevs.
Qed.

(** C6 (as stated, refuted): the text sent when the creation of the
    upstream stream throws is not the one the claim quotes. *)
Lemma C6_error_text_counterexample :
  filter is_send
    (snd (Server.ws_on_message (fun _ => None) init (MBuffer []) true))
  = [WsSend (ErrorMsg "Internal failure starting transcription service.")]
  /\ filter is_send
       (snd (Server.ws_on_message (fun _ => None) init (MBuffer []) true))
     <> [WsSend (ErrorMsg "internal failure starting transcription")].
Proof. split; [reflexivity | cbn; discriminate]. Qed.

(** C6 (amended): when the creation of the upstream stream throws, the
    session sends the error "Internal failure starting transcription
    service." if and only if the socket is open, creates no stream and holds
    no handle afterwards; the next audio frame calls the creation again. *)
Theorem C6_creation_failure (JSON_parse : string -> option json)
  (s : Session) (frame : Buffer) :
  recognizeStream s = None ->
  let s' := fst (Server.ws_on_message JSON_parse s (MBuffer frame) true) in
  let done := snd (Server.ws_on_message JSON_parse s (MBuffer frame) true) in
  filter is_send done
  = (if is_open s
     then [WsSend (ErrorMsg "Internal failure starting transcription service.")]
     else [])
  /\ filter is_create done = []
  /\ recognizeStream s' = None
  /\ readyState s' = readyState s
  /\ Server.first_chunk_timeout s' frame = (s', [])
  /\ (forall (next : Buffer) (create_throws : bool),
        Server.ws_on_message JSON_parse s' (MBuffer next) create_throws
        = (let (s1, started) := Server.startGoogleStream s' create_throws in
           (set_timers s1 (timers s1 ++ [next]), started ++ [SetTimeout 150])))
  /\ (forall next : Buffer,
        filter is_create
          (snd (Server.ws_on_message JSON_parse s' (MBuffer next) false))
        = [StreamingRecognize (next_sid s)]
        /\ stream_ready
             (fst (Server.ws_on_message JSON_parse s' (MBuffer next) false)) = true).
Proof.
  intros Hs s' done. subst s' done.
  assert (Hr : Server.ws_on_message JSON_parse s (MBuffer frame) true
               = (set_timers (set_recognizeStream s None) (timers s ++ [frame]),
                  send_if_open s
                    (ErrorMsg "Internal failure starting transcription service.")
                  ++ [SetTimeout 150])).
  { unfold Server.ws_on_message. rewrite Hs. reflexivity. }
  rewrite Hr. cbn [fst snd]. unfold send_if_open.
  split; [destruct (is_open s); reflexivity|].
  split; [destruct (is_open s); reflexivity|].
  split; [reflexivity|]. split; [reflexivity|]. split; [reflexivity|].
  split; [reflexivity|].
  intros next. split; reflexivity.
Qed.

Lemma C6_creation_failure_witness :
  filter is_send (snd (Server.ws_on_message (fun _ => None) init (MBuffer []) true))
  = [WsSend (ErrorMsg "Internal failure starting transcription service.")].
Proof.
  exact (proj1 (C6_creation_failure (fun _ => None) init [] eq_refl)).
Defined.

(** C7 (as stated, refuted): in [server.ts] a client disconnect while
    streaming only ends the write side; no [destroy] is issued, neither by
    the close handler nor by anything that runs after it. *)
Lemma C7_no_teardown_counterexample :
  fst (Server.run (fun _ => None) init [ClientMessage (MBuffer []) false; TimerFires])
  = streaming 0
  /\ Server.ws_on_close (streaming 0)
     = (set_recognizeStream (streaming 0) None, [StreamEnd 0])
  /\ ~ In (StreamDestroy 0)
         (snd (Server.run (fun _ => None) init
                 [ClientMessage (MBuffer []) false; TimerFires; ClientClose;
                  UpstreamEnd; UpstreamClose])).
Proof.
  split; [reflexivity|]. split; [reflexivity|].
  cbn. intros H. repeat (destruct H as [H | H]; [discriminate|]). exact H.
Qed.

(** C7 (amended): when the client disconnects while the session is
    streaming, [server.ts] half-closes the upstream stream and does nothing
    else to it, while the older variant half-closes and then destroys it; in
    both the reference is cleared, and from any reachable state no later
    event makes the session write to that stream. *)
Theorem C7_client_disconnect (JSON_parse : string -> option json)
  (s : Session) (st : Stream) :
  recognizeStream s = Some st -> destroyed st = false -> writable st = true ->
  Server.ws_on_close s = (set_recognizeStream s None, [StreamEnd (sid st)])
  /\ Legacy.ws_on_close s
     = (set_recognizeStream s None, [StreamEnd (sid st); StreamDestroy (sid st)])
  /\ (Server.reachable JSON_parse s ->
      forall evs data,
        ~ In (StreamWrite (sid st) data)
            (snd (Server.run JSON_parse (fst (Server.ws_on_close s)) evs)))
  /\ (Legacy.reachable JSON_parse s ->
      forall evs data,
        ~ In (StreamWrite (sid st) data)
            (snd (Legacy.run JSON_parse (fst (Legacy.ws_on_close s)) evs))).
Proof.
  intros Hs Hd Hw.
  assert (HS : Server.ws_on_close s
               = (set_recognizeStream s None, [StreamEnd (sid st)])).
  { unfold Server.ws_on_close. rewrite Hs, Hd, Hw. reflexivity. }
  assert (HL : Legacy.ws_on_close s
               = (set_recognizeStream s None,
                  [StreamEnd (sid st); StreamDestroy (sid st)])).
  { unfold Legacy.ws_on_close. rewrite Hs, Hd. reflexivity. }
  rewrite HS, HL. cbn [fst]. repeat split.
  - intros Hr evs data. apply server_run_released.
    apply released_after_drop; [exact Hs|].
    apply (server_reachable_latest JSON_parse), Hr.
  - intros Hr evs data. apply legacy_run_released.
    apply released_after_drop; [exact Hs|].
    apply (legacy_reachable_latest JSON_parse), Hr.
Qed.

Lemma C7_client_disconnect_witness :
  Server.reachable (fun _ => None) (streaming 0)
  /\ Server.ws_on_close (streaming 0)
     = (set_recognizeStream (streaming 0) None, [StreamEnd 0])
  /\ forall evs data,
       ~ In (StreamWrite 0 data)
           (snd (Server.run (fun _ => None)
                   (fst (Server.ws_on_close (streaming 0))) evs)).
Proof.
  assert (Hr : Server.reachable (fun _ => None) (streaming 0))
    by (exists [ClientMessage (MBuffer []) false; TimerFires]; reflexivity).
  pose proof (C7_client_disconnect (fun _ => None) (streaming 0)
                {| sid := 0; destroyed := false; writable := true |}
                eq_refl eq_refl eq_refl) as (HS & _ & Hw & _).
  split; [exact Hr|]. split; [exact HS | exact (Hw Hr)].
Defined.

(** A message that reaches the handler as a string is a no-op, leaving the
    session as it is and doing nothing to the client or to the stream,
    whenever no upstream stream is held, live and writable (whatever the
    text, the stop command included), and whenever its [command] is not
    ["stopStreaming"]. *)
Lemma string_message_noop (JSON_parse : string -> option json)
  (s : Session) (text : string) (create_throws : bool) :
  stream_ready s = false
  \/ (forall command, JSON_parse text = Some command ->
        is_stopStreaming (get_property command "command") = false) ->
  Server.ws_on_message JSON_parse s (MString text) create_throws = (s, []).
Proof.
  intros H. unfold Server.ws_on_message.
  destruct (JSON_parse text) as [command|]; [|reflexivity].
  destruct (is_stopStreaming (get_property command "command")) eqn:Hstop;
    [|reflexivity].
  destruct H as [Hready | Hother].
  - unfold stream_ready in Hready.
    destruct (recognizeStream s) as [st|]; [|reflexivity].
    rewrite Hready. reflexivity.
  - specialize (Hother command eq_refl). congruence.
Qed.

Lemma string_message_noop_example :
  parse_stop_only stop_text
  = Some (JObject [("command"%string, JString "stopStreaming")])
  /\ Server.ws_on_message parse_stop_only init (MString stop_text) false = (init, [])
  /\ Server.ws_on_message
       (fun _ => Some (JObject [("command"%string, JString "pause")]))
       (streaming 0) (MString "pause") false
     = (streaming 0, []).
Proof.
  split; [reflexivity|]. split.
  - apply (string_message_noop parse_stop_only init stop_text false).
    left. reflexivity.
  - apply (string_message_noop _ (streaming 0) "pause" false).
    right. intros command Hc. injection Hc as <-. reflexivity.
Qed.

Lemma stop_frame_length : List.length Trace.stop_frame = 27%nat.
Proof. reflexivity. Qed.

(** C8 (the code departs from the claim): when the text frame of the stop
    command reaches the message listener as a [Buffer] of its 27 bytes, the
    handler takes the audio branch. With no upstream handle it starts the
    upstream stream and sets the first-chunk timer, so the session state
    changes, and if the creation throws an error message is sent; with a
    writable stream it discards the bytes (27 is not a multiple of 4) and
    never ends the stream. *)
Theorem C8_stop_text_as_buffer (JSON_parse : string -> option json)
  (s : Session) :
  (recognizeStream s = None ->
     Server.ws_on_message JSON_parse s (MBuffer Trace.stop_frame) false
     = ({| recognizeStream :=
             Some {| sid := next_sid s; destroyed := false; writable := true |};
           readyState := readyState s;
           timers := timers s ++ [Trace.stop_frame];
           next_sid := S (next_sid s) |},
        [StreamingRecognize (next_sid s); SetTimeout 150])
     /\ fst (Server.ws_on_message JSON_parse s (MBuffer Trace.stop_frame) false) <> s
     /\ snd (Server.ws_on_message JSON_parse s (MBuffer Trace.stop_frame) true)
        = send_if_open s
            (ErrorMsg "Internal failure starting transcription service.")
          ++ [SetTimeout 150])
  /\ (forall st c,
        recognizeStream s = Some st -> destroyed st = false -> writable st = true ->
        Server.ws_on_message JSON_parse s (MBuffer Trace.stop_frame) c = (s, [])).
Proof.
  split.
  - intros Hs.
    assert (E : Server.ws_on_message JSON_parse s (MBuffer Trace.stop_frame) false
                = ({| recognizeStream :=
                        Some {| sid := next_sid s; destroyed := false;
                                writable := true |};
                      readyState := readyState s;
                      timers := timers s ++ [Trace.stop_frame];
                      next_sid := S (next_sid s) |},
                   [StreamingRecognize (next_sid s); SetTimeout 150])).
    { unfold Server.ws_on_message. rewrite Hs. reflexivity. }
    split; [exact E|]. split.
    + rewrite E. cbn [fst]. intros Heq.
      apply (f_equal recognizeStream) in Heq. cbn in Heq. congruence.
    + unfold Server.ws_on_message. rewrite Hs. reflexivity.
  - intros st c Hs Hd Hw.
    rewrite (ws_on_message_ready JSON_parse s st) by assumption.
    reflexivity.
Qed.

(** C9: a data event of the upstream stream leaves the session as it is and
    sends at most one message; that message is the transcript of the first
    alternative of the first result, with the finality flag of that result;
    what else the event carries has no effect. Both variants agree. *)
Theorem C9_first_alternative_only (s : Session) (d : Response) :
  fst (Server.stream_on_data s d) = s
  /\ (List.length (snd (Server.stream_on_data s d)) <= 1)%nat
  /\ Server.stream_on_data s d = Server.stream_on_data s (first_only d)
  /\ (forall a, In a (snd (Server.stream_on_data s d)) ->
        exists r rs alt alts t,
          results d = Some (r :: rs)
          /\ alternatives r = Some (alt :: alts)
          /\ transcript alt = Some t
          /\ a = WsSend (TranscriptMsg t
                           match is_final r with Some b => b | None => false end))
  /\ Legacy.stream_on_data s d = Server.stream_on_data s d.
Proof.
  unfold Server.stream_on_data, Legacy.stream_on_data, Relay.stream_on_data,
    first_only, send_if_open.
  destruct d as [[[|r rs]|] ev]; cbn [results];
    try solve [split; [reflexivity | split; [cbn; lia | split; [reflexivity |
                 split; [intros a [] | reflexivity]]]]].
  destruct r as [[[|alt alts]|] fin]; cbn [alternatives is_final];
    try solve [split; [reflexivity | split; [cbn; lia | split; [reflexivity |
                 split; [intros a [] | reflexivity]]]]].
  destruct alt as [[t|]]; cbn [transcript];
    try solve [split; [reflexivity | split; [cbn; lia | split; [reflexivity |
                 split; [intros a [] | reflexivity]]]]].
  destruct (String.eqb t EmptyString);
    try solve [split; [reflexivity | split; [cbn; lia | split; [reflexivity |
                 split; [intros a [] | reflexivity]]]]].
  destruct (is_open s);
    try solve [split; [reflexivity | split; [cbn; lia | split; [reflexivity |
                 split; [intros a [] | reflexivity]]]]].
  split; [reflexivity | split; [cbn; lia | split; [reflexivity |
    split; [| reflexivity]]]].
  intros a [<- | []].
  exists {| alternatives := Some ({| transcript := Some t |} :: alts); is_final := fin |},
    rs, {| transcript := Some t |}, alts, t.
  repeat split.
Qed.

(** C10: a zero-length binary frame passes the length check. While the
    upstream stream is writable it is written upstream as a zero-byte chunk;
    with no upstream handle it starts the upstream stream, and the deferred
    callback then writes the zero-byte chunk if the stream is ready. *)
Theorem C10_empty_frame (JSON_parse : string -> option json)
  (s : Session) (create_throws : bool) :
  (List.length (@nil byte) mod 4 = 0)%nat
  /\ (forall st,
        recognizeStream s = Some st -> destroyed st = false -> writable st = true ->
        Server.ws_on_message JSON_parse s (MBuffer []) create_throws
        = (s, [StreamWrite (sid st) []])
        /\ Server.first_chunk_timeout s [] = (s, [StreamWrite (sid st) []]))
  /\ (recognizeStream s = None ->
      Server.ws_on_message JSON_parse s (MBuffer []) create_throws
      = (let (s1, started) := Server.startGoogleStream s create_throws in
         (set_timers s1 (timers s1 ++ [[]]), started ++ [SetTimeout 150]))
      /\ Server.ws_on_message JSON_parse s (MBuffer []) false
         = ({| recognizeStream :=
                 Some {| sid := next_sid s; destroyed := false; writable := true |};
               readyState := readyState s;
               timers := timers s ++ [[]];
               next_sid := S (next_sid s) |},
            [StreamingRecognize (next_sid s); SetTimeout 150])).
Proof.
  split; [reflexivity|]. split.
  - intros st Hs Hd Hw. split.
    + rewrite (ws_on_message_ready _ s st) by assumption.
      rewrite (processAndSendAudio_ready s st) by (try assumption; reflexivity).
      reflexivity.
    + unfold Server.first_chunk_timeout, stream_ready. rewrite Hs, Hd, Hw.
      cbn [negb andb].
      rewrite (processAndSendAudio_ready s st) by (try assumption; reflexivity).
      reflexivity.
  - intros Hs. unfold Server.ws_on_message. rewrite Hs. split; reflexivity.
Qed.

(** * Further properties of the code *)

Import Trace.

(** ** Size and shape of the converted audio *)

Lemma Buffer_from_length (l : list Z) :
  List.length (Buffer_from l) = (2 * List.length l)%nat.
Proof.
  unfold Buffer_from. induction l as [|v l IH]; [reflexivity|].
  cbn [flat_map int16_bytes app List.length]. rewrite IH. lia.
Qed.

(** X1: the chunk written upstream holds two bytes per whole four-byte
    sample of the frame; for a frame of whole samples that is half the
    frame. *)
Theorem X1_converted_length (frame : Buffer) :
  List.length (convert_frame frame) = (2 * (List.length frame / 4))%nat
  /\ ((List.length frame mod 4 = 0)%nat ->
      (2 * List.length (convert_frame frame) = List.length frame)%nat).
Proof.
  assert (H : List.length (convert_frame frame) = (2 * (List.length frame / 4))%nat).
  { unfold convert_frame, int16Array_of.
    rewrite Buffer_from_length, length_map, float32Array_length. reflexivity. }
  split; [exact H|]. intros Hmod. rewrite H.
  pose proof (Nat.div_mod_eq (List.length frame) 4). lia.
Qed.

(** ** The conversion as a function of the sample value *)

Lemma Qnum_nonneg (q : Q) : (0 <= q)%Q <-> 0 <= Qnum q.
Proof. destruct q as [n d]. unfold Qle. cbn. lia. Qed.

Lemma Qnum_nonpos (q : Q) : (q <= 0)%Q <-> Qnum q <= 0.
Proof. destruct q as [n d]. unfold Qle. cbn. lia. Qed.

Lemma Qtrunc_nonneg (q : Q) : 0 <= Qnum q -> Qtrunc q = Qfloor q.
Proof.
  destruct q as [n d]. cbn. intros Hn. unfold Qtrunc. cbn.
  apply Z.quot_div_nonneg; lia.
Qed.

Lemma Qtrunc_nonpos (q : Q) : Qnum q <= 0 -> Qtrunc q = Qceiling q.
Proof.
  destruct q as [n d]. cbn. intros Hn. unfold Qtrunc, Qceiling, Qfloor. cbn.
  rewrite <- (Z.opp_involutive n) at 1.
  rewrite Z.quot_opp_l, Z.quot_div_nonneg by lia. reflexivity.
Qed.

Lemma Qtrunc_inject (z : Z) : Qtrunc (inject_Z z) = z.
Proof. unfold Qtrunc. cbn. apply Z.quot_1_r. Qed.

(** Truncation toward zero keeps the order. *)
Lemma Qtrunc_le (p q : Q) : (p <= q)%Q -> Qtrunc p <= Qtrunc q.
Proof.
  intros Hpq.
  destruct (Z.le_gt_cases 0 (Qnum p)) as [Hp | Hp];
    destruct (Z.le_gt_cases 0 (Qnum q)) as [Hq | Hq].
  - rewrite !Qtrunc_nonneg by assumption. apply Qfloor_resp_le, Hpq.
  - exfalso. apply Qnum_nonneg in Hp.
    assert (Hq0 : (0 <= q)%Q) by (eapply Qle_trans; eassumption).
    apply Qnum_nonneg in Hq0. lia.
  - rewrite (Qtrunc_nonpos p), (Qtrunc_nonneg q) by lia.
    transitivity 0.
    + change 0 with (Qceiling 0). apply Qceiling_resp_le, Qnum_nonpos. lia.
    + change 0 with (Qfloor 0). apply Qfloor_resp_le, Qnum_nonneg. lia.
  - rewrite !Qtrunc_nonpos by lia. apply Qceiling_resp_le, Hpq.
Qed.

Lemma clamp_le (lo hi a b : Z) : a <= b -> clamp lo hi a <= clamp lo hi b.
Proof. unfold clamp. lia. Qed.

Lemma sample_trunc_number (x : spec_float) :
  finite_or_zero x = true ->
  sample_trunc x = clamp (-32768) 32767 (Qtrunc (F2Q x * inject_Z 32767)%Q).
Proof. destruct x; intros H; try discriminate; reflexivity. Qed.

(** X2: the conversion keeps the order of the samples: a larger sample
    value never gives a smaller 16-bit sample. *)
Theorem X2_convert_sample_monotone (x y : spec_float) :
  is_float32 x -> is_float32 y ->
  finite_or_zero x = true -> finite_or_zero y = true ->
  (F2Q x <= F2Q y)%Q ->
  convert_sample x <= convert_sample y.
Proof.
  intros Hx Hy Fx Fy Hle.
  rewrite !convert_sample_trunc, !sample_trunc_number by assumption.
  apply clamp_le, Qtrunc_le, Qmult_le_compat_r; [exact Hle | discriminate].
Qed.

Lemma X2_convert_sample_monotone_witness :
  convert_sample (S754_finite true 3 (-2)) <= convert_sample (S754_finite false 1 (-1)).
Proof.
  apply X2_convert_sample_monotone.
  - cbn. split; [reflexivity | lia].
  - cbn. split; [reflexivity | lia].
  - reflexivity.
  - reflexivity.
  - vm_compute. discriminate.
Defined.

Lemma scaled_in_range (x : spec_float) :
  (- (1) <= F2Q x)%Q -> (F2Q x <= 1)%Q ->
  (inject_Z (-32767) <= F2Q x * inject_Z 32767)%Q
  /\ (F2Q x * inject_Z 32767 <= inject_Z 32767)%Q.
Proof.
  intros Hlo Hhi. split.
  - change (inject_Z (-32767)) with (- (1) * inject_Z 32767)%Q.
    apply Qmult_le_compat_r; [exact Hlo | discriminate].
  - setoid_replace (inject_Z 32767) with (1 * inject_Z 32767)%Q at 2
      by (symmetry; apply Qmult_1_l).
    apply Qmult_le_compat_r; [exact Hhi | discriminate].
Qed.

Lemma in_range_trunc (x : spec_float) :
  is_float32 x -> finite_or_zero x = true ->
  (- (1) <= F2Q x)%Q -> (F2Q x <= 1)%Q ->
  convert_sample x = Qtrunc (F2Q x * inject_Z 32767)%Q
  /\ -32767 <= Qtrunc (F2Q x * inject_Z 32767)%Q <= 32767.
Proof.
  intros Hx Fx Hlo Hhi.
  destruct (scaled_in_range x Hlo Hhi) as [Hq1 Hq2].
  assert (Hr : -32767 <= Qtrunc (F2Q x * inject_Z 32767)%Q <= 32767).
  { split.
    - rewrite <- (Qtrunc_inject (-32767)). apply Qtrunc_le, Hq1.
    - rewrite <- (Qtrunc_inject 32767) at 2. apply Qtrunc_le, Hq2. }
  split; [|exact Hr].
  rewrite convert_sample_trunc, sample_trunc_number by assumption.
  unfold clamp. lia.
Qed.

(** X3: a sample between -1 and 1 is never clipped: its 16-bit value is
    the scaled sample with the fraction dropped, lies between -32767 and
    32767, is no larger in magnitude than the scaled sample and differs from
    it by less than one. *)
Theorem X3_in_range_sample (x : spec_float) :
  is_float32 x -> finite_or_zero x = true ->
  (- (1) <= F2Q x)%Q -> (F2Q x <= 1)%Q ->
  let q := (F2Q x * inject_Z 32767)%Q in
  let c := convert_sample x in
  c = Qtrunc q
  /\ -32767 <= c <= 32767
  /\ ((0 <= q)%Q -> (inject_Z c <= q)%Q /\ (q < inject_Z (c + 1))%Q)
  /\ ((q <= 0)%Q -> (inject_Z (c - 1) < q)%Q /\ (q <= inject_Z c)%Q).
Proof.
  intros Hx Fx Hlo Hhi q c. subst c.
  destruct (in_range_trunc x Hx Fx Hlo Hhi) as [Hc Hr]. fold q in Hc, Hr.
  rewrite Hc. split; [reflexivity|]. split; [exact Hr|]. split.
  - intros Hq. apply Qnum_nonneg in Hq. rewrite Qtrunc_nonneg by assumption.
    split; [apply Qfloor_le | apply Qlt_floor].
  - intros Hq. apply Qnum_nonpos in Hq. rewrite Qtrunc_nonpos by assumption.
    split; [apply Qceiling_lt | apply Qle_ceiling].
Qed.

Lemma X3_in_range_sample_witness :
  convert_sample (S754_finite true 3 (-2))
  = Qtrunc (F2Q (S754_finite true 3 (-2)) * inject_Z 32767)%Q.
Proof.
  refine (proj1 (X3_in_range_sample (S754_finite true 3 (-2)) _ eq_refl _ _)).
  - cbn. split; [reflexivity | lia].
  - vm_compute. discriminate.
  - vm_compute. discriminate.
Defined.

Lemma is_float32_opp (x : spec_float) : is_float32 x -> is_float32 (SFopp x).
Proof. destruct x; cbn; auto. Qed.

(** X4: for a sample between -1 and 1, negating the sample negates its
    16-bit value. *)
Theorem X4_in_range_symmetric (x : spec_float) :
  is_float32 x -> finite_or_zero x = true ->
  (- (1) <= F2Q x)%Q -> (F2Q x <= 1)%Q ->
  convert_sample (SFopp x) = - convert_sample x.
Proof.
  intros Hx Fx Hlo Hhi.
  destruct (in_range_trunc x Hx Fx Hlo Hhi) as (Hc & Hr).
  destruct x as [s|s| |s m e]; try discriminate.
  - destruct s; reflexivity.
  - destruct Hx as [Hm He]. cbn [SFopp].
    rewrite Qtrunc_scaled in Hr.
    rewrite !convert_sample_finite by assumption.
    assert (0 <= Z.shiftl (Zpos m * 32767) e) by (apply Z.shiftl_nonneg; lia).
    unfold clamp. destruct s; cbn [negb cond_Zopp] in *; lia.
Qed.

Lemma X4_in_range_symmetric_witness :
  convert_sample (SFopp (S754_finite true 3 (-2)))
  = - convert_sample (S754_finite true 3 (-2)).
Proof.
  apply X4_in_range_symmetric.
  - cbn. split; [reflexivity | lia].
  - reflexivity.
  - vm_compute. discriminate.
  - vm_compute. discriminate.
Defined.

(** ** What the handlers never do *)

(** X5: no handler of either variant sends anything to a client whose
    socket is not open. *)
Theorem X5_no_send_unless_open (JSON_parse : string -> option json)
  (s : Session) (e : event) :
  is_open s = false ->
  filter is_send (snd (Server.step JSON_parse s e)) = []
  /\ filter is_send (snd (Legacy.step JSON_parse s e)) = [].
Proof.
  intros Hclosed. split.
  - destruct e; unfold_server; rewrite ?Hclosed; break_match; pair_inv;
      cbn; try reflexivity; congruence.
  - destruct e; unfold_legacy; rewrite ?Hclosed; break_match; pair_inv;
      cbn; try reflexivity; congruence.
Qed.

Lemma X5_no_send_unless_open_witness :
  filter is_send
    (snd (Server.step (fun _ => None) (set_readyState (streaming 0) CLOSED)
            (UpstreamError "quota"))) = [].
Proof.
  exact (proj1 (X5_no_send_unless_open (fun _ => None)
                  (set_readyState (streaming 0) CLOSED)
                  (UpstreamError "quota") eq_refl)).
Defined.

Lemma server_step_write_source (JSON_parse : string -> option json)
  (s : Session) (e : event) (h : nat) (data : Buffer) :
  In (StreamWrite h data) (snd (Server.step JSON_parse s e)) ->
  (exists st, recognizeStream s = Some st /\ sid st = h
              /\ destroyed st = false /\ writable st = true)
  /\ (exists frame,
        (In frame (timers s) \/ exists c, e = ClientMessage (MBuffer frame) c)
        /\ (List.length frame mod 4 = 0)%nat
        /\ data = convert_frame frame).
Proof.
  destruct e; unfold_server; break_match; pair_inv; cbn; intros H; in_cases;
    try discriminate; try contradiction.
  all: match goal with H : StreamWrite _ _ = StreamWrite _ _ |- _ =>
                         injection H as <- <- end.
  all: cbn in *.
  all: repeat match goal with
         | H : negb ?b && ?w = true |- _ =>
             apply andb_prop in H; destruct H
         | H : negb ?b = true |- _ => apply negb_true_iff in H
         | H : negb (_ =? _)%nat = false |- _ =>
             apply negb_false_iff, Nat.eqb_eq in H
         end.
  all: split;
    [ eexists; repeat split; first [eassumption | reflexivity | congruence]
    | eexists; split;
      [ first [ left; rewrite H0; left; reflexivity
              | left; left; reflexivity
              | right; eexists; reflexivity ]
      | split; [assumption | reflexivity] ] ].
Qed.

(** X6: a handler of [server.ts] writes only to the stream the session
    holds, and only while that stream is neither destroyed nor ended; what
    it writes is the conversion of a chunk of whole samples, taken from the
    message being handled or from a pending timer. *)
Theorem X6_write_needs_ready_stream (JSON_parse : string -> option json)
  (s : Session) (e : event) (h : nat) (data : Buffer) :
  In (StreamWrite h data) (snd (Server.step JSON_parse s e)) ->
  (exists st, recognizeStream s = Some st /\ sid st = h
              /\ destroyed st = false /\ writable st = true)
  /\ (exists frame,
        (In frame (timers s) \/ exists c, e = ClientMessage (MBuffer frame) c)
        /\ (List.length frame mod 4 = 0)%nat
        /\ data = convert_frame frame).
Proof. apply server_step_write_source. Qed.

Lemma X6_write_needs_ready_stream_witness :
  exists st, recognizeStream (streaming 0) = Some st /\ sid st = 0%nat
             /\ destroyed st = false /\ writable st = true.
Proof.
  refine (proj1 (X6_write_needs_ready_stream (fun _ => None) (streaming 0)
                   (ClientMessage (MBuffer []) false) 0 [] _)).
  left. reflexivity.
Defined.

(** ** Nothing is done to a stream after it is destroyed *)

Lemma quiet_after_destroy_app (h : nat) (a b : list action) :
  quiet_after_destroy h a = true -> quiet_after_destroy h b = true ->
  (existsb (is_destroy_of h) a = true ->
   forallb (fun x => negb (touches h x)) b = true) ->
  quiet_after_destroy h (a ++ b) = true.
Proof.
  induction a as [|x a IH]; intros Ha Hb Hab; [exact Hb|].
  cbn [app quiet_after_destroy existsb] in *.
  apply andb_prop in Ha. destruct Ha as [Hx Ha].
  apply andb_true_intro. split.
  - destruct (is_destroy_of h x); [|reflexivity].
    rewrite forallb_app, Hx. apply Hab. reflexivity.
  - apply IH; [exact Ha | exact Hb |].
    intros Hex. apply Hab. rewrite Hex. apply orb_true_r.
Qed.

Lemma holds_latest_init : holds_latest init.
Proof. intros st Hst. discriminate. Qed.

Ltac eqb_cases :=
  repeat match goal with
    | |- context [Nat.eqb ?a ?b] => destruct (Nat.eqb_spec a b)
    | H : context [Nat.eqb ?a ?b] |- _ => destruct (Nat.eqb_spec a b)
    end.

Section ServerTeardown.

Variable JSON_parse : string -> option json.

Local Abbreviation step := (Server.step JSON_parse).
Local Abbreviation run := (Server.run JSON_parse).

Lemma server_step_touch (s : Session) (e : event) (h : nat) (a : action) :
  In a (snd (step s e)) -> touches h a = true ->
  exists st, recognizeStream s = Some st /\ sid st = h.
Proof.
  destruct e; unfold_server; break_match; pair_inv; cbn; intros H Ht; in_cases;
    subst; cbn in Ht; try discriminate; try contradiction.
  all: apply Nat.eqb_eq in Ht; subst.
  all: eexists; split; [first [eassumption | reflexivity] | reflexivity].
Qed.

Lemma server_run_untouched (evs : list event) : forall (s : Session) (h : nat),
  released h s ->
  forallb (fun a => negb (touches h a)) (snd (run s evs)) = true.
Proof.
  induction evs as [|e evs IH]; intros s h Hrel; [reflexivity|].
  cbn [Server.run].
  pose proof (server_step_released JSON_parse s e h Hrel) as Hnext.
  pose proof (server_step_touch s e h) as Ht.
  destruct (step s e) as [s1 a1].
  specialize (IH s1 h Hnext).
  destruct (run s1 evs) as [s2 a2]. cbn [fst snd] in *.
  rewrite forallb_app, IH, andb_true_r.
  apply forallb_forall. intros a Ha.
  destruct (touches h a) eqn:Hta; [|reflexivity].
  destruct (Ht a Ha Hta) as (st & Hst & Hsid). destruct Hrel as [_ Hne].
  exfalso. exact (Hne st Hst Hsid).
Qed.

Lemma server_step_quiet (s : Session) (e : event) (h : nat) :
  quiet_after_destroy h (snd (step s e)) = true.
Proof.
  destruct e; unfold_server; break_match; pair_inv; cbn;
    eqb_cases; reflexivity.
Qed.

Lemma server_step_destroy_released (s : Session) (e : event) (h : nat) :
  holds_latest s ->
  existsb (is_destroy_of h) (snd (step s e)) = true ->
  released h (fst (step s e)).
Proof.
  unfold released, holds_latest. intros Hl.
  destruct e; unfold_server; break_match; pair_inv; cbn; intros H;
    try discriminate.
  all: rewrite ?orb_false_r in H; apply Nat.eqb_eq in H; subst.
  all: split; [|discriminate].
  all: match goal with
       | Hs : recognizeStream _ = Some ?st |- _ =>
           first [specialize (Hl st Hs) | specialize (Hl st eq_refl)]
       end; lia.
Qed.

Lemma server_run_quiet (evs : list event) : forall (s : Session) (h : nat),
  holds_latest s -> quiet_after_destroy h (snd (run s evs)) = true.
Proof.
  induction evs as [|e evs IH]; intros s h Hl; [reflexivity|].
  cbn [Server.run].
  pose proof (server_step_latest JSON_parse s e Hl) as Hl1.
  pose proof (server_step_quiet s e h) as Hq.
  pose proof (server_step_destroy_released s e h Hl) as Hd.
  destruct (step s e) as [s1 a1].
  pose proof (server_run_untouched evs s1 h) as Hu.
  specialize (IH s1 h Hl1).
  destruct (run s1 evs) as [s2 a2]. cbn [fst snd] in *.
  apply quiet_after_destroy_app; [exact Hq | exact IH |].
  intros Hex. apply Hu, Hd, Hex.
Qed.

End ServerTeardown.

Section LegacyTeardown.

Variable JSON_parse : string -> option json.

Local Abbreviation step := (Legacy.step JSON_parse).
Local Abbreviation run := (Legacy.run JSON_parse).

Lemma legacy_step_touch (s : Session) (e : event) (h : nat) (a : action) :
  In a (snd (step s e)) -> touches h a = true ->
  exists st, recognizeStream s = Some st /\ sid st = h.
Proof.
  destruct e; unfold_legacy; break_match; pair_inv; cbn; intros H Ht; in_cases;
    subst; cbn in Ht; try discriminate; try contradiction.
  all: apply Nat.eqb_eq in Ht; subst.
  all: eexists; split; [first [eassumption | reflexivity] | reflexivity].
Qed.

Lemma legacy_run_untouched (evs : list event) : forall (s : Session) (h : nat),
  released h s ->
  forallb (fun a => negb (touches h a)) (snd (run s evs)) = true.
Proof.
  induction evs as [|e evs IH]; intros s h Hrel; [reflexivity|].
  cbn [Legacy.run].
  pose proof (legacy_step_released JSON_parse s e h Hrel) as Hnext.
  pose proof (legacy_step_touch s e h) as Ht.
  destruct (step s e) as [s1 a1].
  specialize (IH s1 h Hnext).
  destruct (run s1 evs) as [s2 a2]. cbn [fst snd] in *.
  rewrite forallb_app, IH, andb_true_r.
  apply forallb_forall. intros a Ha.
  destruct (touches h a) eqn:Hta; [|reflexivity].
  destruct (Ht a Ha Hta) as (st & Hst & Hsid). destruct Hrel as [_ Hne].
  exfalso. exact (Hne st Hst Hsid).
Qed.

Lemma legacy_step_quiet (s : Session) (e : event) (h : nat) :
  quiet_after_destroy h (snd (step s e)) = true.
Proof.
  destruct e; unfold_legacy; break_match; pair_inv; cbn;
    eqb_cases; reflexivity.
Qed.

Lemma legacy_step_destroy_released (s : Session) (e : event) (h : nat) :
  holds_latest s ->
  existsb (is_destroy_of h) (snd (step s e)) = true ->
  released h (fst (step s e)).
Proof.
  unfold released, holds_latest. intros Hl.
  destruct e; unfold_legacy; break_match; pair_inv; cbn; intros H;
    try discriminate.
  all: rewrite ?orb_false_r in H; apply Nat.eqb_eq in H; subst.
  all: split; [|discriminate].
  all: match goal with
       | Hs : recognizeStream _ = Some ?st |- _ =>
           first [specialize (Hl st Hs) | specialize (Hl st eq_refl)]
       end; lia.
Qed.

Lemma legacy_run_quiet (evs : list event) : forall (s : Session) (h : nat),
  holds_latest s -> quiet_after_destroy h (snd (run s evs)) = true.
Proof.
  induction evs as [|e evs IH]; intros s h Hl; [reflexivity|].
  cbn [Legacy.run].
  pose proof (legacy_step_latest JSON_parse s e Hl) as Hl1.
  pose proof (legacy_step_quiet s e h) as Hq.
  pose proof (legacy_step_destroy_released s e h Hl) as Hd.
  destruct (step s e) as [s1 a1].
  pose proof (legacy_run_untouched evs s1 h) as Hu.
  specialize (IH s1 h Hl1).
  destruct (run s1 evs) as [s2 a2]. cbn [fst snd] in *.
  apply quiet_after_destroy_app; [exact Hq | exact IH |].
  intros Hex. apply Hu, Hd, Hex.
Qed.

End LegacyTeardown.

(** X7: in every run of a connection, in either variant, once a stream has
    been destroyed nothing more is done to it: no write, no end, no second
    destroy. *)
Theorem X7_nothing_after_destroy (JSON_parse : string -> option json)
  (evs : list event) (h : nat) :
  quiet_after_destroy h (snd (Server.run JSON_parse init evs)) = true
  /\ quiet_after_destroy h (snd (Legacy.run JSON_parse init evs)) = true.
Proof.
  split.
  - apply server_run_quiet, holds_latest_init.
  - apply legacy_run_quiet, holds_latest_init.
Qed.

(** ** Where the written chunks come from *)


Section ServerChunks.

Variable JSON_parse : string -> option json.

Local Abbreviation step := (Server.step JSON_parse).
Local Abbreviation run := (Server.run JSON_parse).




End ServerChunks.


(** ** The first chunk *)

Lemma server_first_message (JSON_parse : string -> option json)
  (s : Session) (f : Buffer) :
  recognizeStream s = None -> timers s = [] ->
  Server.ws_on_message JSON_parse s (MBuffer f) false
  = ({| recognizeStream :=
          Some {| sid := next_sid s; destroyed := false; writable := true |};
        readyState := readyState s; timers := [f];
        next_sid := S (next_sid s) |},
     [StreamingRecognize (next_sid s); SetTimeout 150]).
Proof.
  intros Hs Ht. unfold Server.ws_on_message. rewrite Hs.
  unfold Server.startGoogleStream, set_timers.
  cbn [timers recognizeStream readyState next_sid app]. rewrite Ht. reflexivity.
Qed.

Lemma legacy_first_message (JSON_parse : string -> option json)
  (s : Session) (f : Buffer) :
  recognizeStream s = None -> timers s = [] ->
  Legacy.ws_on_message JSON_parse s (MBuffer f) false
  = ({| recognizeStream :=
          Some {| sid := next_sid s; destroyed := false; writable := true |};
        readyState := readyState s; timers := [convert_frame f];
        next_sid := S (next_sid s) |},
     [StreamingRecognize (next_sid s); SetTimeout 50]).
Proof.
  intros Hs Ht. unfold Legacy.ws_on_message. rewrite Hs.
  unfold Legacy.startGoogleStream, set_timers.
  cbn [timers recognizeStream readyState next_sid app]. rewrite Ht. reflexivity.
Qed.

(** X9: the chunk that starts the stream is held back until its timer
    fires, while a chunk that arrives in between is written at once; so in
    both variants the second chunk reaches the stream before the first. *)
Theorem X9_first_chunk_overtaken (JSON_parse : string -> option json)
  (s : Session) (f1 f2 : Buffer) (c : bool) :
  recognizeStream s = None -> timers s = [] ->
  (List.length f1 mod 4 = 0)%nat -> (List.length f2 mod 4 = 0)%nat ->
  snd (Server.run JSON_parse s
         [ClientMessage (MBuffer f1) false; ClientMessage (MBuffer f2) c; TimerFires])
  = [StreamingRecognize (next_sid s); SetTimeout 150;
     StreamWrite (next_sid s) (convert_frame f2);
     StreamWrite (next_sid s) (convert_frame f1)]
  /\ snd (Legacy.run JSON_parse s
            [ClientMessage (MBuffer f1) false; ClientMessage (MBuffer f2) c; TimerFires])
     = [StreamingRecognize (next_sid s); SetTimeout 50;
        StreamWrite (next_sid s) (convert_frame f2);
        StreamWrite (next_sid s) (convert_frame f1)].
Proof.
  intros Hs Ht H1 H2.
  set (st := {| sid := next_sid s; destroyed := false; writable := true |}).
  split.
  - cbn [Server.run Server.step].
    rewrite (server_first_message JSON_parse s f1 Hs Ht). fold st.
    rewrite (ws_on_message_ready JSON_parse _ st) by reflexivity.
    rewrite (processAndSendAudio_ready _ st f2) by (try reflexivity; exact H2).
    cbn [timers]. unfold Server.first_chunk_timeout, stream_ready, set_timers.
    cbn [recognizeStream destroyed writable negb andb st].
    rewrite (processAndSendAudio_ready _ st f1) by (try reflexivity; exact H1).
    reflexivity.
  - cbn [Legacy.run Legacy.step].
    rewrite (legacy_first_message JSON_parse s f1 Hs Ht). fold st.
    unfold Legacy.ws_on_message, Legacy.first_chunk_timeout, set_timers.
    cbn [recognizeStream destroyed writable negb andb st timers].
    reflexivity.
Qed.

Lemma X9_first_chunk_overtaken_witness :
  snd (Server.run (fun _ => None) init
         [ClientMessage (MBuffer [x00; x00; x80; x3e]) false;
          ClientMessage (MBuffer [x00; x00; x80; xbf]) false; TimerFires])
  = [StreamingRecognize 0; SetTimeout 150;
     StreamWrite 0 (convert_frame [x00; x00; x80; xbf]);
     StreamWrite 0 (convert_frame [x00; x00; x80; x3e])].
Proof.
  exact (proj1 (X9_first_chunk_overtaken (fun _ => None) init
                  [x00; x00; x80; x3e] [x00; x00; x80; xbf] false
                  eq_refl eq_refl eq_refl eq_refl)).
Defined.

(** ** Relaying transcripts *)

Lemma stream_on_data_state (s : Session) (d : Response) :
  Relay.stream_on_data s d = (s, snd (Relay.stream_on_data s d)).
Proof. unfold Relay.stream_on_data. break_match; reflexivity. Qed.

(** X10: a sequence of data events of the stream leaves the session as it
    is, and the messages sent to the client are those of the single events,
    in the order of the events; the same in both variants. *)
Theorem X10_transcripts_in_order (JSON_parse : string -> option json)
  (s : Session) (ds : list Response) :
  Server.run JSON_parse s (map UpstreamData ds)
  = (s, flat_map (fun d => snd (Server.stream_on_data s d)) ds)
  /\ Legacy.run JSON_parse s (map UpstreamData ds)
     = (s, flat_map (fun d => snd (Legacy.stream_on_data s d)) ds).
Proof.
  unfold Server.stream_on_data, Legacy.stream_on_data.
  induction ds as [|d ds [IHs IHl]]; [split; reflexivity|].
  cbn [map flat_map Server.run Legacy.run Server.step Legacy.step].
  unfold Server.stream_on_data, Legacy.stream_on_data.
  rewrite (stream_on_data_state s d), IHs, IHl. split; reflexivity.
Qed.

(** ** After a stop command *)










(** ** Trailing bytes *)

Lemma float32Array_app_tail (tail : Buffer) :
  (List.length tail < 4)%nat ->
  forall frame : Buffer,
    (List.length frame mod 4 = 0)%nat ->
    float32Array_of (frame ++ tail) = float32Array_of frame.
Proof.
  intros Ht.
  assert (H : forall n (frame : Buffer), (List.length frame <= n)%nat ->
              (List.length frame mod 4 = 0)%nat ->
              float32Array_of (frame ++ tail) = float32Array_of frame).
  { induction n as [|n IH]; intros frame Hn Hmod.
    - destruct frame; [|cbn in Hn; lia]. cbn [app].
      destruct tail as [|t0 [|t1 [|t2 [|t3 rest]]]]; try reflexivity.
      cbn in Ht. lia.
    - destruct frame as [|b0 [|b1 [|b2 [|b3 rest]]]];
        try (cbn in Hmod; discriminate).
      + apply (IH []); [cbn; lia | reflexivity].
      + cbn [app float32Array_of]. f_equal. apply IH.
        * cbn [List.length] in Hn. lia.
        * replace (List.length (b0 :: b1 :: b2 :: b3 :: rest))
            with (List.length rest + 1 * 4)%nat in Hmod
            by (cbn [List.length]; lia).
          rewrite Nat.Div0.mod_add in Hmod. exact Hmod. }
  intros frame. apply (H (List.length frame)). lia.
Qed.

(** X13: a frame with one to three bytes beyond its whole samples is
    treated differently by the two variants: the older one ignores the extra
    bytes and writes the whole samples, [server.ts] discards the frame. *)
Theorem X13_trailing_bytes (JSON_parse : string -> option json)
  (s : Session) (st : Stream) (frame tail : Buffer) (c : bool) :
  recognizeStream s = Some st -> destroyed st = false -> writable st = true ->
  (List.length frame mod 4 = 0)%nat ->
  (0 < List.length tail < 4)%nat ->
  Legacy.ws_on_message JSON_parse s (MBuffer (frame ++ tail)) c
  = (s, [StreamWrite (sid st) (convert_frame frame)])
  /\ Server.ws_on_message JSON_parse s (MBuffer (frame ++ tail)) c = (s, []).
Proof.
  intros Hs Hd Hw Hmod Ht. split.
  - unfold Legacy.ws_on_message. rewrite Hs, Hd, Hw. cbn [negb andb].
    rewrite float32Array_app_tail by (try assumption; lia). reflexivity.
  - rewrite (ws_on_message_ready JSON_parse s st) by assumption.
    unfold Server.processAndSendAudio.
    assert (Hne : (List.length (frame ++ tail) mod 4 <> 0)%nat).
    { rewrite length_app, Nat.Div0.add_mod, Hmod, Nat.add_0_l.
      rewrite Nat.Div0.mod_mod, Nat.mod_small; lia. }
    destruct (Nat.eqb_spec (List.length (frame ++ tail) mod 4) 0);
      [contradiction | reflexivity].
Qed.

Lemma X13_trailing_bytes_witness :
  Legacy.ws_on_message (fun _ => None) (streaming 0)
    (MBuffer ([x00; x00; x80; x3e] ++ [xff; xff])) false
  = (streaming 0, [StreamWrite 0 (convert_frame [x00; x00; x80; x3e])]).
Proof.
  refine (proj1 (X13_trailing_bytes (fun _ => None) (streaming 0)
                   {| sid := 0; destroyed := false; writable := true |}
                   [x00; x00; x80; x3e] [xff; xff] false
                   eq_refl eq_refl eq_refl eq_refl _)).
  cbn. lia.
Defined.

(** ** Tearing down more than once *)

(** X14: after the client socket has closed or failed, or the stream has
    closed, a second such event does nothing at all, in any order; and an
    error of the stream arriving afterwards is reported to an open client
    but destroys nothing. *)
Theorem X14_teardown_once (s : Session) (err_message : string) :
  Forall (fun first =>
            Forall (fun second =>
                      second (fst (first s)) = (fst (first s), []))
              teardowns
            /\ filter (fun a => negb (is_send a))
                 (snd (Server.stream_on_error (fst (first s)) err_message)) = [])
    teardowns.
Proof.
  unfold teardowns, Server.stream_on_error, send_if_open, is_open.
  repeat (first [apply Forall_nil | apply Forall_cons | apply conj]);
    cbn; try reflexivity; destruct (readyState s); reflexivity.
Qed.

(** ** Clipping *)

(** X15: samples of 1 and above give 32767 and samples whose scaled value
    is -32768 or below give -32768; the value -32768 is produced for no
    sample of -1 or above, so full scale is 32767 on both sides. *)
Theorem X15_clipping (x : spec_float) :
  is_float32 x -> finite_or_zero x = true ->
  ((1 <= F2Q x)%Q -> convert_sample x = 32767)
  /\ ((F2Q x * inject_Z 32767 <= inject_Z (-32768))%Q -> convert_sample x = -32768)
  /\ (convert_sample x = -32768 -> (F2Q x < - (1))%Q).
Proof.
  intros Hx Fx.
  assert (Hc : convert_sample x
               = clamp (-32768) 32767 (Qtrunc (F2Q x * inject_Z 32767)%Q)).
  { rewrite convert_sample_trunc, sample_trunc_number by assumption. reflexivity. }
  assert (Hhigh : (1 <= F2Q x)%Q -> convert_sample x = 32767).
  { intros H1. rewrite Hc.
    assert (32767 <= Qtrunc (F2Q x * inject_Z 32767)%Q).
    { rewrite <- (Qtrunc_inject 32767) at 1. apply Qtrunc_le.
      setoid_replace (inject_Z 32767) with (1 * inject_Z 32767)%Q at 1
        by (symmetry; apply Qmult_1_l).
      apply Qmult_le_compat_r; [exact H1 | discriminate]. }
    unfold clamp. lia. }
  split; [exact Hhigh|]. split.
  - intros H1. rewrite Hc.
    assert (Qtrunc (F2Q x * inject_Z 32767)%Q <= -32768).
    { rewrite <- (Qtrunc_inject (-32768)). apply Qtrunc_le, H1. }
    unfold clamp. lia.
  - intros Hmin.
    destruct (Qlt_le_dec (F2Q x) (- (1))) as [Hlt | Hge]; [exact Hlt|].
    exfalso.
    destruct (Qlt_le_dec 1 (F2Q x)) as [Hgt | Hle].
    + rewrite Hhigh in Hmin by (apply Qlt_le_weak, Hgt). discriminate.
    + destruct (in_range_trunc x Hx Fx Hge Hle) as [Heq Hr]. lia.
Qed.

Lemma X15_clipping_witness :
  convert_sample (S754_finite false 1 1) = 32767.
Proof.
  refine (proj1 (X15_clipping (S754_finite false 1 1) _ eq_refl) _).
  - cbn. split; [reflexivity | lia].
  - vm_compute. discriminate.
Defined.
